(** * Movie recommender: embedding text, ingestion and similarity search

    A shallow embedding of the semantic-search core of the movie recommender:

    - [scripts/embed_movies.py] (ingestion): [build_embedding_text], the
      validity filter, the id de-duplication, the batch loop and the
      id-keyed upsert;
    - [backend/main.py] (query service): [search_movies];
    - the SQL function [match_movies] and the [movies] table.

    Python values that may be NaN / None / NULL are [option]s, Python
    exceptions are the [Raise] outcome of a small state-and-error monad, and
    the external collaborators (the embedding provider, the pgvector
    distance operator, double precision arithmetic) are the fields of a
    type class. *)

From Stdlib Require Import String Ascii List ZArith Bool Arith Lia.
From Stdlib Require Import Permutation Sorted.
Import ListNotations.

Local Open Scope string_scope.
Local Open Scope list_scope.

(** ** Python strings and sequences *)

Module Py.

(** [bool(s)] for a [str]: a string is truthy when it is not empty. *)
Definition truthy (s : string) : bool := negb (String.eqb s "").

(** [sep.join(parts)]. *)
Definition join (sep : string) (parts : list string) : string :=
  String.concat sep parts.

(** [str.isspace] on one character, for the code points below 256:
    TAB..CR, FS..US, SPACE, NEL and NBSP. *)
Definition isspace (c : ascii) : bool :=
  let n := nat_of_ascii c in
  ((9 <=? n) && (n <=? 13) || (28 <=? n) && (n <=? 32)
   || (n =? 133) || (n =? 160))%nat.

(** [str.lstrip()]. *)
Fixpoint lstrip (s : string) : string :=
  match s with
  | EmptyString => EmptyString
  | String c s' => if isspace c then lstrip s' else s
  end.

(** [str.rstrip()]: a character is kept when it is not white space or
    when something is kept after it. *)
Fixpoint rstrip (s : string) : string :=
  match s with
  | EmptyString => EmptyString
  | String c s' =>
      match rstrip s' with
      | EmptyString => if isspace c then EmptyString else String c EmptyString
      | r => String c r
      end
  end.

(** [str.strip()]. *)
Definition strip (s : string) : string := rstrip (lstrip s).

(** Every character of [s] is white space (true of the empty string). *)
Fixpoint all_space (s : string) : bool :=
  match s with
  | EmptyString => true
  | String c s' => isspace c && all_space s'
  end.

(** [s[:n]] on a string. *)
Definition prefix (n : nat) (s : string) : string := String.substring 0 n s.

(** [l[start:stop]] for [0 <= start], by position ([iloc]). *)
Definition slice {A : Type} (start stop : nat) (l : list A) : list A :=
  firstn (stop - start) (skipn start l).

(** [range(start, stop, step)] for a positive [step]. *)
Definition range (start stop step : nat) : list nat :=
  map (fun k => start + k * step) (seq 0 ((stop - start + step - 1) / step)).

End Py.

(** ** External collaborators *)

(** What the code takes from outside: pgvector's [vector] values, the
    number of components of a vector and the cosine distance operator
    [<=>], which is applied to vectors of equal dimensions; the [n] of the
    column type [VECTOR(n)] of [movies.embedding] (3072 in the schema of
    the implementation plan, 1536 in the schema beside the shipped
    function); the strings the type [DATE] reads as a date; double
    precision numbers with the comparison [ORDER BY] uses and the
    subtraction [1 - d]; and the embedding provider's
    [embeddings.create(model=..., input=...)], which answers with one
    vector per input text or fails. *)
Class Collaborators : Type := {
  vector : Type;
  float8 : Type;
  dimensions : vector -> nat;
  vector_dimensions : nat;
  is_date : string -> bool;
  cosine_distance : vector -> vector -> float8;
  float8_le : float8 -> float8 -> bool;
  one_minus : float8 -> float8;
  embeddings_create : string -> list string -> option (list vector)
}.

(** The comparison of [float8] is a total order, and [1 - d] does not
    increase when [d] grows.  This is the order of the distances of
    vectors that are not zero; the distance to a zero vector is NaN, which
    the database sorts after every number and which [1 - d] leaves NaN. *)
Class Float8Order (C : Collaborators) : Prop := {
  float8_le_total : forall a b : float8,
    float8_le a b = true \/ float8_le b a = true;
  float8_le_trans : forall a b c : float8,
    float8_le a b = true -> float8_le b c = true -> float8_le a c = true;
  float8_le_antisym : forall a b : float8,
    float8_le a b = true -> float8_le b a = true -> a = b;
  one_minus_antitone : forall a b : float8,
    float8_le a b = true -> float8_le (one_minus b) (one_minus a) = true
}.

(** ** Rows *)

(** One row of [movies_df] after the genre and keyword columns are parsed,
    the ids are coerced by [pd.to_numeric(..., errors="coerce")] and the
    keyword names are merged in.  [None] is pandas' NaN. *)
Module Row.
Record t `{Collaborators} : Type := mk {
  id : option Z;
  title : option string;
  overview : option string;
  release_date : option string;
  poster_path : option string;
  genre_names : list string;
  keyword_names : list string;
  vote_average : option float8;
  vote_count : option Z
}.
Arguments mk {_}.
End Row.

(** One row of the table [movies]: [id] is the primary key, [title] is
    [NOT NULL], every other column is nullable. *)
Module Movie.
Record t `{Collaborators} : Type := mk {
  id : Z;
  title : string;
  overview : option string;
  release_date : option string;
  poster_path : option string;
  genres : option (list string);
  keywords : option (list string);
  vote_average : option float8;
  vote_count : option Z;
  embedding : option vector
}.
Arguments mk {_}.
End Movie.

(** One row of the table [match_movies] returns. *)
Module Match.
Record t `{Collaborators} : Type := mk {
  id : Z;
  title : string;
  overview : option string;
  release_date : option string;
  poster_path : option string;
  genres : option (list string);
  vote_average : option float8;
  similarity : float8
}.
Arguments mk {_}.
End Match.

(** The response model [MovieResult]. *)
Module MovieResult.
Record t `{Collaborators} : Type := mk {
  id : Z;
  title : string;
  overview : option string;
  release_date : option string;
  poster_path : option string;
  genres : list string;
  vote_average : option float8;
  similarity : float8
}.
Arguments mk {_}.
End MovieResult.

(** The request model [SearchRequest]; [limit] defaults to 10 and has no
    validator. *)
Record SearchRequest : Type := mkSearchRequest {
  query : string;
  limit : Z
}.

(** The response model [SearchResponse]. *)
Record SearchResponse `{Collaborators} : Type := mkSearchResponse {
  results : list MovieResult.t
}.
Arguments mkSearchResponse {_}.

(** ** Effects *)

(** Python exceptions. *)
Inductive exn : Type :=
| HTTPException (status_code : nat) (detail : string)
| TypeError
| ValueError
| IndexError
| OpenAIError
| APIError.

Inductive outcome (A : Type) : Type :=
| Return (a : A)
| Raise (e : exn).
Arguments Return {A} a.
Arguments Raise {A} e.

(** Calls to the external services, in the order they are made. *)
Inductive call `{Collaborators} : Type :=
| EmbeddingsCreate (model : string) (input : list string)
| RpcMatchMovies (query_embedding : vector) (match_count : Z)
| Upsert (ids : list Z).

(** The world a run acts on: the rows of [movies] in the order a scan
    delivers them, and the log of external calls. *)
Record World `{Collaborators} : Type := mkWorld {
  movies : list Movie.t;
  calls : list call
}.
Arguments mkWorld {_}.

(** Computations that read and change the world and may raise.  The world
    survives an exception: what was upserted before stays upserted. *)
Definition M `{Collaborators} (A : Type) : Type := World -> outcome A * World.

Definition ret `{Collaborators} {A : Type} (a : A) : M A :=
  fun w => (Return a, w).

Definition raise `{Collaborators} {A : Type} (e : exn) : M A :=
  fun w => (Raise e, w).

Definition bind `{Collaborators} {A B : Type} (c : M A) (k : A -> M B) : M B :=
  fun w =>
    match c w with
    | (Return a, w') => k a w'
    | (Raise e, w') => (Raise e, w')
    end.

Notation "x <- c ;; k" := (bind c (fun x => k))
  (at level 61, c at next level, right associativity).

(** [for x in xs: body(x)]. *)
Fixpoint for_each `{Collaborators} {A : Type} (xs : list A) (body : A -> M unit)
  : M unit :=
  match xs with
  | [] => ret tt
  | x :: xs' => _ <- body x ;; for_each xs' body
  end.

(** A pure step that may raise. *)
Definition lift `{Collaborators} {A : Type} (o : outcome A) : M A :=
  fun w => (o, w).

Definition log `{Collaborators} (c : call) (w : World) : World :=
  mkWorld (movies w) (calls w ++ [c]).

(** [openai_client.embeddings.create(model=model, input=input).data],
    the embeddings in order. *)
Definition openai_embeddings_create `{Collaborators}
    (model : string) (input : list string) : M (list vector) :=
  fun w =>
    let w' := log (EmbeddingsCreate model input) w in
    match embeddings_create model input with
    | Some data => (Return data, w')
    | None => (Raise OpenAIError, w')
    end.

(** The status FastAPI answers with: 200 on return, the status of an
    [HTTPException], 500 for any other exception. *)
Definition status_code {A : Type} (o : outcome A) : nat :=
  match o with
  | Return _ => 200
  | Raise (HTTPException status _) => status
  | Raise _ => 500
  end.

(** ** The table [movies] and the function [match_movies] *)

Section Store.
Context `{Collaborators}.

(** [INSERT ... ON CONFLICT (id) DO UPDATE] of one row: the row with this
    id is replaced where it stands, a new id is appended. *)
Definition upsert_row (r : Movie.t) (table : list Movie.t) : list Movie.t :=
  if existsb (fun m => Z.eqb (Movie.id m) (Movie.id r)) table
  then map (fun m => if Z.eqb (Movie.id m) (Movie.id r) then r else m) table
  else table ++ [r].

Definition upsert_rows (records : list Movie.t) (table : list Movie.t)
  : list Movie.t :=
  fold_left (fun t r => upsert_row r t) records table.

(** [FROM movies m WHERE m.embedding IS NOT NULL]: the rows that have a
    vector, each with its vector. *)
Fixpoint embedded (table : list Movie.t) : list (Movie.t * vector) :=
  match table with
  | [] => []
  | m :: table' =>
      match Movie.embedding m with
      | Some e => (m, e) :: embedded table'
      | None => embedded table'
      end
  end.

(** [m.embedding <=> query_embedding]. *)
Definition distance (query_embedding : vector) (me : Movie.t * vector)
  : float8 :=
  cosine_distance (snd me) query_embedding.

(** [ORDER BY key]: the rows in non-decreasing order of the key.  The key
    is all the ordering looks at: SQL leaves the order of rows of equal key
    open, and the sort of PostgreSQL does not keep them in the order of
    the scan.  Here they stay in that order, so that the open choice is
    the order of the table's rows: every sorted arrangement of the rows is
    what this function gives on some order of the table, and what is to
    hold for every choice is stated for every order of the rows. *)
Fixpoint insert_by {A : Type} (key : A -> float8) (x : A) (l : list A)
  : list A :=
  match l with
  | [] => [x]
  | y :: l' =>
      if float8_le (key x) (key y) then x :: l else y :: insert_by key x l'
  end.

Fixpoint order_by {A : Type} (key : A -> float8) (l : list A) : list A :=
  match l with
  | [] => []
  | x :: l' => insert_by key x (order_by key l')
  end.

(** The select list of [match_movies]. *)
Definition select (query_embedding : vector) (me : Movie.t * vector)
  : Match.t :=
  let m := fst me in
  Match.mk (Movie.id m) (Movie.title m) (Movie.overview m)
    (Movie.release_date m) (Movie.poster_path m) (Movie.genres m)
    (Movie.vote_average m)
    (one_minus (cosine_distance (snd me) query_embedding)).

(** [match_movies(query_embedding, match_count)], with [None] for an
    error of the database.  [match_count] is an [INT]: a number outside
    the range of that type is refused, and so is a negative [LIMIT].  The
    modifier of the parameter type [VECTOR(1536)] is not checked, but
    [<=>] refuses two vectors of different dimensions; the sort computes
    the distance of every row that has a vector, unless the limit is 0,
    when no row is read. *)
Definition match_movies (query_embedding : vector) (match_count : Z)
    (table : list Movie.t) : option (list Match.t) :=
  if ((match_count <? 0) || (2147483647 <? match_count))%Z then None
  else if
    (0 <? match_count)%Z
    && existsb
         (fun me =>
            negb (Nat.eqb (dimensions (snd me)) (dimensions query_embedding)))
         (embedded table)
  then None
  else
    Some (map (select query_embedding)
            (firstn (Z.to_nat match_count)
               (order_by (distance query_embedding) (embedded table)))).

(** [supabase.rpc("match_movies", {...}).execute().data]. *)
Definition rpc_match_movies (query_embedding : vector) (match_count : Z)
  : M (list Match.t) :=
  fun w =>
    let w' := log (RpcMatchMovies query_embedding match_count) w in
    match match_movies query_embedding match_count (movies w) with
    | Some data => (Return data, w')
    | None => (Raise APIError, w')
    end.

(** The column types of [movies] on one row of an upsert: [id BIGINT],
    [release_date DATE], [vote_count INT] and [embedding VECTOR(n)]. *)
Definition fits_columns (m : Movie.t) : bool :=
  ((-9223372036854775808 <=? Movie.id m)
   && (Movie.id m <=? 9223372036854775807))%Z
  && match Movie.release_date m with
     | Some d => is_date d
     | None => true
     end
  && match Movie.vote_count m with
     | Some c => ((-2147483648 <=? c) && (c <=? 2147483647))%Z
     | None => true
     end
  && match Movie.embedding m with
     | Some e => Nat.eqb (dimensions e) vector_dimensions
     | None => true
     end.

(** [supabase.table("movies").upsert(records).execute()]: one statement,
    which the database refuses as a whole when a row does not fit the
    columns. *)
Definition table_upsert (records : list Movie.t) : M unit :=
  fun w =>
    let made := calls w ++ [Upsert (map Movie.id records)] in
    if forallb fits_columns records
    then (Return tt, mkWorld (upsert_rows records (movies w)) made)
    else (Raise APIError, mkWorld (movies w) made).

End Store.

(** ** [scripts/embed_movies.py] *)

Module embed_movies.
Section Script.
Context `{Collaborators}.

Definition EMBEDDING_MODEL : string := "text-embedding-3-large".
Definition BATCH_SIZE : nat := 100.

(** [build_embedding_text(row)].  A NaN title or overview reaches
    [". ".join(parts)] as a float (NaN is truthy), which raises
    [TypeError]. *)
Definition build_embedding_text (row : Row.t) : outcome string :=
  match Row.title row, Row.overview row with
  | Some title, Some overview =>
      let genres := Py.join ", " (Row.genre_names row) in
      let keywords := Py.join ", " (firstn 20 (Row.keyword_names row)) in
      let parts := [title] in
      let parts := if Py.truthy overview then parts ++ [overview] else parts in
      let parts :=
        if Py.truthy genres then parts ++ [("Genres: " ++ genres)%string]
        else parts in
      let parts :=
        if Py.truthy keywords then parts ++ [("Keywords: " ++ keywords)%string]
        else parts in
      Return (Py.join ". " parts)
  | _, _ => Raise TypeError
  end.

(** [get_embeddings(texts)]. *)
Definition get_embeddings (texts : list string) : M (list vector) :=
  openai_embeddings_create EMBEDDING_MODEL texts.

Definition notna {A : Type} (v : option A) : bool :=
  match v with Some _ => true | None => false end.

(** The mask of the filter "movies with valid data"; [str.len() > 10] is
    false on NaN. *)
Definition is_valid (row : Row.t) : bool :=
  notna (Row.id row) && notna (Row.title row) && notna (Row.overview row)
  && match Row.overview row with
     | Some o => (10 <? String.length o)%nat
     | None => false
     end.

Definition same_id (a b : option Z) : bool :=
  match a, b with
  | Some x, Some y => Z.eqb x y
  | None, None => true
  | _, _ => false
  end.

(** [drop_duplicates(subset=["id"])]: the first row of every id is kept. *)
Fixpoint drop_duplicates_seen (seen : list (option Z)) (rows : list Row.t)
  : list Row.t :=
  match rows with
  | [] => []
  | r :: rows' =>
      if existsb (same_id (Row.id r)) seen
      then drop_duplicates_seen seen rows'
      else r :: drop_duplicates_seen (Row.id r :: seen) rows'
  end.

Definition drop_duplicates (rows : list Row.t) : list Row.t :=
  drop_duplicates_seen [] rows.

(** [valid_movies] as it stands before the embedding text is built. *)
Definition valid_movies (movies_df : list Row.t) : list Row.t :=
  drop_duplicates (filter is_valid movies_df).

(** [valid_movies.apply(build_embedding_text, axis=1)]: every row with its
    text, or the first exception. *)
Fixpoint apply_build_embedding_text (rows : list Row.t)
  : outcome (list (Row.t * string)) :=
  match rows with
  | [] => Return []
  | r :: rows' =>
      match build_embedding_text r with
      | Raise e => Raise e
      | Return text =>
          match apply_build_embedding_text rows' with
          | Raise e => Raise e
          | Return rest => Return ((r, text) :: rest)
          end
      end
  end.

(** The dictionary [record] of one row; [int(row["id"])] raises
    [ValueError] on NaN and [str(row["title"])] of NaN is ["nan"]. *)
Definition make_record (row : Row.t) (embedding : vector)
  : outcome Movie.t :=
  match Row.id row with
  | None => Raise ValueError
  | Some id =>
      Return
        (Movie.mk id
           (match Row.title row with Some t => t | None => "nan" end)
           (Row.overview row)
           (option_map (Py.prefix 10) (Row.release_date row))
           (Row.poster_path row)
           (Some (Row.genre_names row))
           (Some (firstn 20 (Row.keyword_names row)))
           (Row.vote_average row)
           (Row.vote_count row)
           (Some embedding))
  end.

(** The loop [for idx, (_, row) in enumerate(batch.iterrows())], from
    index [idx] on; [embeddings[idx]] raises [IndexError] past the end. *)
Fixpoint make_records (idx : nat) (batch : list (Row.t * string))
    (embeddings : list vector) : outcome (list Movie.t) :=
  match batch with
  | [] => Return []
  | (row, _) :: batch' =>
      match nth_error embeddings idx with
      | None => Raise IndexError
      | Some e =>
          match make_record row e with
          | Raise e => Raise e
          | Return record =>
              match make_records (S idx) batch' embeddings with
              | Raise e => Raise e
              | Return records => Return (record :: records)
              end
          end
      end
  end.

(** One turn of the batch loop. *)
Definition process_batch (frame : list (Row.t * string)) (start : nat)
  : M unit :=
  let total := length frame in
  let stop := Nat.min (start + BATCH_SIZE) total in
  let batch := Py.slice start stop frame in
  embeddings <- get_embeddings (map snd batch) ;;
  records <- lift (make_records 0 batch embeddings) ;;
  table_upsert records.

(** [main()], from the merged data frame on.  The progress counter and
    the printed lines are left out. *)
Definition main (movies_df : list Row.t) : M unit :=
  frame <- lift (apply_build_embedding_text (valid_movies movies_df)) ;;
  for_each (Py.range 0 (length frame) BATCH_SIZE) (process_batch frame).

End Script.
End embed_movies.

(** ** [backend/main.py] *)

Module main.
Section Service.
Context `{Collaborators}.

Definition EMBEDDING_MODEL : string := "text-embedding-3-large".

(** The construction of one [MovieResult]: [row["genres"] or []]. *)
Definition movie_result (row : Match.t) : MovieResult.t :=
  MovieResult.mk (Match.id row) (Match.title row) (Match.overview row)
    (Match.release_date row) (Match.poster_path row)
    (match Match.genres row with
     | Some (g :: gs) => g :: gs
     | _ => []
     end)
    (Match.vote_average row) (Match.similarity row).

(** [search_movies(request)], the handler of [POST /search]. *)
Definition search_movies (request : SearchRequest) : M SearchResponse :=
  if negb (Py.truthy (Py.strip (query request)))
  then raise (HTTPException 400 "Query cannot be empty")
  else
    data <- openai_embeddings_create EMBEDDING_MODEL [query request] ;;
    query_embedding <-
      lift (match data with
            | e :: _ => Return e
            | [] => Raise IndexError
            end) ;;
    result <- rpc_match_movies query_embedding (limit request) ;;
    ret (mkSearchResponse (map movie_result result)).

End Service.
End main.

(** ** The keyword merge of [main()] *)

Section Merge.
Context `{Collaborators}.

(** The row with the column [keyword_names] set. *)
Definition with_keyword_names (row : Row.t) (names : list string) : Row.t :=
  Row.mk (Row.id row) (Row.title row) (Row.overview row)
    (Row.release_date row) (Row.poster_path row) (Row.genre_names row)
    names (Row.vote_average row) (Row.vote_count row).

(** [movies_df.merge(keywords_df[["id", "keyword_names"]], on="id",
    how="left")], followed by the replacement of NaN by [[]]: every row of
    [movies_df], in order, once for each row of [keywords_df] of its id
    (pandas joins NaN with NaN), in the order of [keywords_df], or once
    with no keyword when there is none.  Before the merge [movies_df] has
    no column [keyword_names]: that field of its rows is not read. *)
Definition merge_keywords
    (movies_df : list Row.t) (keywords_df : list (option Z * list string))
  : list Row.t :=
  flat_map
    (fun row =>
       match
         filter (fun k => embed_movies.same_id (fst k) (Row.id row))
           keywords_df
       with
       | [] => [with_keyword_names row []]
       | found => map (fun k => with_keyword_names row (snd k)) found
       end)
    movies_df.

End Merge.

(** ** The function [bulk_update_posters] *)

Section Posters.
Context `{Collaborators}.

(** [SET poster_path = p] on one row. *)
Definition set_poster_path (m : Movie.t) (p : option string) : Movie.t :=
  Movie.mk (Movie.id m) (Movie.title m) (Movie.overview m)
    (Movie.release_date m) p (Movie.genres m) (Movie.keywords m)
    (Movie.vote_average m) (Movie.vote_count m) (Movie.embedding m).

(** [m.id = u.id]; a record without an id has a NULL id, which equals
    nothing. *)
Definition joins (m : Movie.t) (u : option Z * option string) : bool :=
  match fst u with
  | Some i => Z.eqb (Movie.id m) i
  | None => false
  end.

(** [bulk_update_posters(updates)] on the record set
    [jsonb_to_recordset(updates) AS u(id BIGINT, poster_path TEXT)]: the
    table after the [UPDATE] and the row count it returns.  A row that
    joins several records is updated once, from one of them; SQL leaves
    open from which, and PostgreSQL takes the last.  A rewritten row is a
    new version of the row, written after the rows that stand: a scan
    delivers the rows that joined no record in their old order, then the
    rewritten rows. *)
Definition bulk_update_posters
    (updates : list (option Z * option string)) (table : list Movie.t)
  : list Movie.t * Z :=
  (filter (fun m => negb (existsb (joins m) updates)) table
   ++ map (fun m =>
             match find (joins m) (rev updates) with
             | Some u => set_poster_path m (snd u)
             | None => m
             end)
        (filter (fun m => existsb (joins m) updates) table),
   Z.of_nat (length (filter (fun m => existsb (joins m) updates) table))).

End Posters.

(** ** JavaScript strings *)

Module Js.

(** White space of [String.prototype.trim], for the code points below
    256: TAB, LF, VT, FF, CR, SPACE and NBSP. *)
Definition isspace (c : ascii) : bool :=
  let n := nat_of_ascii c in
  ((9 <=? n) && (n <=? 13) || (n =? 32) || (n =? 160))%nat.

(** [s.trimStart()]. *)
Fixpoint trimStart (s : string) : string :=
  match s with
  | EmptyString => EmptyString
  | String c s' => if isspace c then trimStart s' else s
  end.

(** [s.trimEnd()]. *)
Fixpoint trimEnd (s : string) : string :=
  match s with
  | EmptyString => EmptyString
  | String c s' =>
      match trimEnd s' with
      | EmptyString => if isspace c then EmptyString else String c EmptyString
      | r => String c r
      end
  end.

(** [s.trim()]. *)
Definition trim (s : string) : string := trimEnd (trimStart s).

(** A string is truthy when it is not empty. *)
Definition truthy (s : string) : bool := negb (String.eqb s "").

Fixpoint all_space (s : string) : bool :=
  match s with
  | EmptyString => true
  | String c s' => isspace c && all_space s'
  end.

End Js.

(** ** [frontend/app/components/SearchBar.tsx] *)

Module SearchBar.

(** [handleSubmit]: the argument [onSearch] is called with, if it is
    called. *)
Definition handleSubmit (query : string) : option string :=
  if Js.truthy (Js.trim query) then Some (Js.trim query) else None.

End SearchBar.

(** ** [frontend/app/page.tsx] *)

Module page.
Section Home.
Context `{Collaborators}.

(** The four pieces of state of [Home]. *)
Record state : Type := mk {
  movies : list MovieResult.t;
  isLoading : bool;
  error : option string;
  hasSearched : bool
}.

Definition initial : state := mk [] false None false.

(** What [fetch] and [response.json()] settle to: the promise of [fetch]
    rejects, or there is a response with its status and, when the body is
    JSON, the [results] of the body. *)
Inductive fetched : Type :=
| Rejected
| Responded (status : nat) (results : option (list MovieResult.t)).

(** [response.ok]. *)
Definition ok (status : nat) : bool :=
  ((200 <=? status) && (status <=? 299))%nat.

(** The body of the request: [{ query, limit: 10 }]. *)
Definition request_body (query : string) : SearchRequest :=
  mkSearchRequest query 10.

(** [handleSearch] up to the [await]. *)
Definition handleSearch_pending (s : state) : state :=
  mk (movies s) true None true.

(** [handleSearch] from the [await] on: [try], [catch] and [finally]. *)
Definition handleSearch_settled (f : fetched) (s : state) : state :=
  match f with
  | Responded status (Some results) =>
      if ok status then mk results false (error s) (hasSearched s)
      else
        mk [] false (Some "Failed to search movies. Please try again.")
          (hasSearched s)
  | _ =>
      mk [] false (Some "Failed to search movies. Please try again.")
        (hasSearched s)
  end.

Definition handleSearch (f : fetched) (s : state) : state :=
  handleSearch_settled f (handleSearch_pending s).

(** The response of the backend to the request of [handleSearch], as
    [fetch] sees it; the body of an error response is not read. *)
Definition fetch_search (query : string) (w : World) : fetched :=
  match fst (main.search_movies (request_body query) w) with
  | Return resp => Responded 200 (Some (results resp))
  | Raise e => Responded (status_code (@Raise SearchResponse e)) None
  end.

(** [error && ...]: [null] and the empty string are falsy. *)
Definition shown (message : option string) : bool :=
  match message with
  | Some text => Js.truthy text
  | None => false
  end.

(** The four conditional blocks of the page. *)
Record view : Type := mkView {
  error_line : bool;
  loading_line : bool;
  no_movies_line : bool;
  grid : list MovieResult.t
}.

Definition render (s : state) : view :=
  mkView (shown (error s)) (isLoading s)
    (negb (isLoading s) && hasSearched s
     && Nat.eqb (length (movies s)) 0 && negb (shown (error s)))
    (if (0 <? length (movies s))%nat then movies s else []).

End Home.
End page.

(** ** The calls of an ingestion run *)

(** What a turn of the batch loop asks of the services: the embeddings of
    one batch of texts from the configured model, or the upsert of one
    batch of rows. *)
Definition batch_call `{Collaborators} (c : call) : Prop :=
  match c with
  | EmbeddingsCreate model input =>
      model = embed_movies.EMBEDDING_MODEL
      /\ 1 <= length input <= embed_movies.BATCH_SIZE
  | Upsert ids => 1 <= length ids <= embed_movies.BATCH_SIZE
  | RpcMatchMovies _ _ => False
  end.

(** A record the table takes fits its columns and carries a vector that
    the provider gave under the configured model. *)
Definition stored_record `{Collaborators} (m : Movie.t) : Prop :=
  fits_columns m = true
  /\ exists texts es e,
       embeddings_create embed_movies.EMBEDDING_MODEL texts = Some es
       /\ In e es /\ Movie.embedding m = Some e.

(** ** The tie-break, in words *)

(** The order the specification asks of results of equal similarity:
    whenever a result stands before another of equal similarity, its id is
    the smaller one. *)
Fixpoint ties_in_id_order `{Collaborators} (rs : list MovieResult.t) : bool :=
  match rs with
  | [] => true
  | a :: rest =>
      forallb
        (fun b =>
           implb
             (float8_le (MovieResult.similarity a) (MovieResult.similarity b)
              && float8_le (MovieResult.similarity b)
                   (MovieResult.similarity a))
             (Z.leb (MovieResult.id a) (MovieResult.id b)))
        rest
      && ties_in_id_order rest
  end.

(** ** The embedding text, in words *)

(** The format as the design document writes it, all four segments
    present: one space between the overview and the genres segment. *)
Definition documented_embedding_text
    (title overview : string) (genres keywords : list string) : string :=
  (title ++ ". " ++ overview ++ " Genres: " ++ Py.join ", " genres
     ++ ". Keywords: " ++ Py.join ", " (firstn 20 keywords))%string.

(** One optional segment of the text the script builds: nothing when the
    content is empty, otherwise the separator, the label and the content. *)
Definition segment (label content : string) : string :=
  if Py.truthy content then (". " ++ label ++ content)%string else "".

(** The text the script builds, as one concatenation: the title, then
    the segments that are present, each led by a period and a space. *)
Definition joined_embedding_text
    (title overview : string) (genres keywords : list string) : string :=
  (title ++ segment "" overview
     ++ segment "Genres: " (Py.join ", " genres)
     ++ segment "Keywords: " (Py.join ", " (firstn 20 keywords)))%string.

(** ** A small catalogue *)

(** A stand-in for the collaborators, for running the code on concrete
    data: unit vectors of dimension one, whose cosine distance is exactly
    0 (same direction) or 2 (opposite), a column [VECTOR(1)], dates of ten
    characters, integers for the numbers, and a provider that reads the
    direction off the first character. *)
Module Sample.

Inductive direction : Type := East | West.

Definition same_direction (a b : direction) : bool :=
  match a, b with
  | East, East | West, West => true
  | _, _ => false
  end.

Definition embed (text : string) : direction :=
  match text with
  | String c _ => if Nat.even (nat_of_ascii c) then East else West
  | EmptyString => East
  end.

#[local] Instance provider : Collaborators := {|
  vector := direction;
  float8 := Z;
  dimensions := fun _ => 1;
  vector_dimensions := 1;
  is_date := fun d => Nat.eqb (String.length d) 10;
  cosine_distance := fun a b => if same_direction a b then 0%Z else 2%Z;
  float8_le := Z.leb;
  one_minus := fun d => (1 - d)%Z;
  embeddings_create := fun _ texts => Some (map embed texts)
|}.

Definition titanic : Row.t :=
  Row.mk (Some 597%Z) (Some "Titanic") (Some "A ship sinks.")
    (Some "1997-11-18") (Some "/titanic.jpg")
    ["Drama"; "Romance"] ["iceberg"; "ship"] (Some 8%Z) (Some 7770%Z).

Definition up : Row.t :=
  Row.mk (Some 14160%Z) (Some "Up") (Some "A house flies away on balloons.")
    (Some "2009-05-13") None ["Animation"] [] (Some 8%Z) (Some 7048%Z).

(** Two movies with the same title, overview, genres and keywords. *)
Definition twin (id : Z) : Row.t :=
  Row.mk (Some id) (Some "Twins") (Some "Two films, one text.")
    None None ["Comedy"] [] None None.

(** Overviews of exactly ten and of exactly eleven characters. *)
Definition ten : Row.t :=
  Row.mk (Some 10%Z) (Some "Ten") (Some "0123456789") None None [] [] None
    None.

Definition eleven : Row.t :=
  Row.mk (Some 11%Z) (Some "Eleven") (Some "0123456789A") None None [] []
    None None.

Definition movies_df : list Row.t := [titanic; up; twin 2; twin 1; ten; eleven].

Definition empty : World := mkWorld [] [].

(** A row without a vector, and a row without genres. *)
Definition unembedded : Movie.t :=
  Movie.mk 7%Z "Lost" None None None (Some ["Drama"]) None None None None.

Definition bare : Movie.t :=
  Movie.mk 8%Z "Bare" None None None None None None None (Some East).

(** The store after one ingestion run, with the two rows above added. *)
Definition world : World :=
  mkWorld (movies (snd (embed_movies.main movies_df empty))
             ++ [unembedded; bare]) [].

(** The same rows, delivered in the opposite order. *)
Definition world_reversed : World := mkWorld (rev (movies world)) [].

Definition ship (limit : Z) : SearchRequest :=
  mkSearchRequest "The ship that sinks" limit.

Definition blank : SearchRequest := mkSearchRequest "   " 10.

End Sample.

(** A second stand-in, for vectors of two dimensions: vectors are lists
    of integers, the column is [VECTOR(2)], and the provider answers with
    vectors of three components.  One row with a vector of two components
    stands in the table. *)
Module Mixed.

Definition provider : Collaborators := {|
  vector := list Z;
  float8 := Z;
  dimensions := @length Z;
  vector_dimensions := 2;
  is_date := fun d => Nat.eqb (String.length d) 10;
  cosine_distance := fun a b => if list_eq_dec Z.eq_dec a b then 0%Z else 1%Z;
  float8_le := Z.leb;
  one_minus := fun d => (1 - d)%Z;
  embeddings_create := fun _ texts => Some (map (fun _ => [1; 0; 0]%Z) texts)
|}.

Definition stored : @Movie.t provider :=
  @Movie.mk provider 1%Z "Stored" None None None None None None None
    (Some [1; 0]%Z).

Definition world : @World provider := @mkWorld provider [stored] [].

End Mixed.

(** More of the small catalogue: a keyword table, a row with many
    keywords, the stored row of Titanic and a set of poster updates. *)
Module Shelf.

#[local] Existing Instance Sample.provider.

(** Two keyword rows for Titanic, one for a movie that is not there. *)
Definition keywords_df : list (option Z * list string) :=
  [(Some 597%Z, ["iceberg"; "ship"]); (Some 597%Z, ["ocean"]);
   (Some 5%Z, ["hotel"])].

(** Titanic with twenty-one keyword names. *)
Definition busy : Row.t :=
  with_keyword_names Sample.titanic (repeat "sea" 20 ++ ["last"]).

(** The row of Titanic as the script stores it. *)
Definition titanic : Movie.t :=
  Movie.mk 597%Z "Titanic" (Some "A ship sinks.") (Some "1997-11-18")
    (Some "/titanic.jpg") (Some ["Drama"; "Romance"])
    (Some ["iceberg"; "ship"]) (Some 8%Z) (Some 7770%Z) (Some Sample.East).

(** A new poster for Titanic, a record without an id, and a record for a
    movie that is not in the table. *)
Definition updates : list (option Z * option string) :=
  [(Some 597%Z, Some "/new.jpg"); (None, Some "/lost.jpg");
   (Some 999%Z, None)].

End Shelf.

(** * Properties *)

(** ** Strings *)

Section Strings.

Lemma append_assoc (a b c : string) :
  ((a ++ b) ++ c = a ++ (b ++ c))%string.
Proof.
  induction a as [|x a IH]; simpl; [reflexivity|]. now rewrite IH.
Qed.

Lemma append_empty_r (a : string) : (a ++ "")%string = a.
Proof.
  induction a as [|x a IH]; simpl; [reflexivity|]. now rewrite IH.
Qed.

Lemma truthy_false_empty (s : string) : Py.truthy s = false <-> s = "".
Proof.
  unfold Py.truthy. rewrite negb_false_iff. apply String.eqb_eq.
Qed.

Lemma truthy_true_nonempty (s : string) : Py.truthy s = true <-> s <> "".
Proof.
  unfold Py.truthy. rewrite negb_true_iff. apply String.eqb_neq.
Qed.

(** Joining a part list that ends with one more part. *)
Lemma join_snoc (sep : string) (parts : list string) (p : string) :
  parts <> [] ->
  Py.join sep (parts ++ [p]) = (Py.join sep parts ++ sep ++ p)%string.
Proof.
  unfold Py.join.
  induction parts as [|x parts IH]; intros Hne; [congruence|].
  destruct parts as [|y parts]; [reflexivity|].
  change (String.concat sep ((x :: y :: parts) ++ [p]))
    with (x ++ sep ++ String.concat sep ((y :: parts) ++ [p]))%string.
  rewrite IH by discriminate.
  change (String.concat sep (x :: y :: parts))
    with (x ++ sep ++ String.concat sep (y :: parts))%string.
  now rewrite !append_assoc.
Qed.

(** Appending an optional part to a part list appends its segment to the
    joined text. *)
Lemma join_optional (parts : list string) (label content : string) :
  parts <> [] ->
  Py.join ". "
    (if Py.truthy content then parts ++ [(label ++ content)%string]
     else parts)
  = (Py.join ". " parts ++ segment label content)%string.
Proof.
  intros Hne. unfold segment. destruct (Py.truthy content).
  - now apply join_snoc.
  - now rewrite append_empty_r.
Qed.

Lemma optional_nonempty (parts : list string) (b : bool) (p : string) :
  parts <> [] -> (if b then parts ++ [p] else parts) <> [].
Proof.
  intros Hne. destruct b; [|assumption].
  intros E. apply app_eq_nil in E. destruct E as [_ E]. discriminate E.
Qed.

Lemma segment_empty (label : string) : segment label "" = "".
Proof. reflexivity. Qed.

Lemma segment_present (label content : string) :
  content <> "" -> segment label content = (". " ++ label ++ content)%string.
Proof.
  intros Hne. unfold segment.
  now apply truthy_true_nonempty in Hne; rewrite Hne.
Qed.

Lemma lstrip_all_space (s : string) :
  Py.all_space (Py.lstrip s) = Py.all_space s.
Proof.
  induction s as [|c s IH]; simpl; [reflexivity|].
  destruct (Py.isspace c) eqn:Hc; simpl; [assumption|].
  now rewrite Hc.
Qed.

Lemma rstrip_empty (s : string) :
  Py.rstrip s = "" <-> Py.all_space s = true.
Proof.
  induction s as [|c s IH]; simpl; [tauto|].
  destruct (Py.rstrip s) eqn:Hr.
  - destruct (Py.isspace c); simpl.
    + split; intros _; [now apply IH | reflexivity].
    + split; discriminate.
  - split; [discriminate|]. intros Hs. apply andb_true_iff in Hs.
    destruct Hs as [_ Hs]. apply IH in Hs. discriminate Hs.
Qed.

(** [s.strip()] is empty exactly when [s] is empty or all white space. *)
Lemma strip_empty (s : string) :
  Py.strip s = "" <-> Py.all_space s = true.
Proof.
  unfold Py.strip. rewrite rstrip_empty. now rewrite lstrip_all_space.
Qed.

Lemma not_strip_blank (s : string) :
  negb (Py.truthy (Py.strip s)) = Py.all_space s.
Proof.
  destruct (Py.all_space s) eqn:Hs.
  - apply strip_empty in Hs. now rewrite Hs.
  - apply negb_false_iff, truthy_true_nonempty. intros E.
    apply strip_empty in E. congruence.
Qed.

End Strings.

(** ** The embedding text *)

Section EmbeddingText.
Context `{Collaborators}.

Lemma build_embedding_text_joined (row : Row.t) (t o : string) :
  Row.title row = Some t -> Row.overview row = Some o ->
  embed_movies.build_embedding_text row
  = Return (joined_embedding_text t o (Row.genre_names row)
              (Row.keyword_names row)).
Proof.
  intros Ht Ho. unfold embed_movies.build_embedding_text, joined_embedding_text.
  rewrite Ht, Ho. f_equal.
  rewrite (join_optional _ "Keywords: ").
  2:{ apply optional_nonempty.
      change [o] with [("" ++ o)%string].
      apply optional_nonempty. discriminate. }
  rewrite (join_optional _ "Genres: ").
  2:{ apply optional_nonempty. discriminate. }
  change [o] with [("" ++ o)%string].
  rewrite (join_optional [t] "" o) by discriminate.
  simpl. now rewrite !append_assoc.
Qed.

(** C1, as the code has it.  For a row with a title and an overview the
    text is the title followed by the segments that are present, each led
    by a period and a space: the overview, ["Genres: "] with the genre
    names joined by [", "], ["Keywords: "] with the first 20 keyword names
    joined by [", "].  A segment whose content is empty leaves nothing
    behind, so a row with no overview, genres or keywords gives the title
    alone; with all three present the text is
    [title. overview. Genres: g1, g2. Keywords: k1, k2]. *)
Theorem embedding_text_segments (row : Row.t) (t o : string) :
  Row.title row = Some t -> Row.overview row = Some o ->
  let genres := Py.join ", " (Row.genre_names row) in
  let keywords := Py.join ", " (firstn 20 (Row.keyword_names row)) in
  embed_movies.build_embedding_text row
  = Return (joined_embedding_text t o (Row.genre_names row)
              (Row.keyword_names row))
  /\ (o = "" -> Row.genre_names row = [] -> Row.keyword_names row = [] ->
      embed_movies.build_embedding_text row = Return t)
  /\ (o <> "" -> genres <> "" -> keywords <> "" ->
      embed_movies.build_embedding_text row
      = Return (t ++ ". " ++ o ++ ". Genres: " ++ genres
                  ++ ". Keywords: " ++ keywords)%string).
Proof.
  intros Ht Ho genres keywords.
  pose proof (build_embedding_text_joined row t o Ht Ho) as Hj.
  split; [exact Hj|]. split.
  - intros Eo Eg Ek. rewrite Hj. unfold joined_embedding_text.
    rewrite Eo, Eg, Ek. simpl. now rewrite !segment_empty, !append_empty_r.
  - intros No Ng Nk. rewrite Hj. unfold joined_embedding_text.
    fold genres. fold keywords.
    rewrite (segment_present "" o No), (segment_present _ genres Ng),
      (segment_present _ keywords Nk).
    simpl. now rewrite ?append_assoc.
Qed.

End EmbeddingText.

(** ** The ingestion filter *)

Section Filter.
Context `{Collaborators}.

Lemma same_id_eq (a b : option Z) : embed_movies.same_id a b = true <-> a = b.
Proof.
  destruct a as [x|], b as [y|]; simpl; try (split; congruence).
  rewrite Z.eqb_eq. split; congruence.
Qed.

Lemma seen_In (a : option Z) (seen : list (option Z)) :
  existsb (embed_movies.same_id a) seen = true <-> In a seen.
Proof.
  rewrite existsb_exists. split.
  - intros [b [Hb Hab]]. apply same_id_eq in Hab. now subst b.
  - intros Ha. exists a. split; [assumption|]. now apply same_id_eq.
Qed.

Lemma drop_duplicates_seen_In (rows : list Row.t) :
  forall (seen : list (option Z)) (r : Row.t),
    In r (embed_movies.drop_duplicates_seen seen rows) -> In r rows.
Proof.
  induction rows as [|x rows IH]; intros seen r; simpl; [tauto|].
  destruct (existsb _ seen).
  - intros Hr. right. now apply (IH seen).
  - intros [E|Hr]; [now left|]. right. now apply (IH _ _ Hr).
Qed.

(** A row's id survives de-duplication unless it was seen before. *)
Lemma drop_duplicates_seen_keeps_id (rows : list Row.t) :
  forall (seen : list (option Z)) (r : Row.t),
    In r rows ->
    In (Row.id r) seen
    \/ In (Row.id r)
         (map Row.id (embed_movies.drop_duplicates_seen seen rows)).
Proof.
  induction rows as [|x rows IH]; intros seen r; simpl; [tauto|].
  intros [E|Hr].
  - subst x. destruct (existsb _ seen) eqn:Hs.
    + left. now apply seen_In.
    + right. now left.
  - destruct (existsb _ seen) eqn:Hs.
    + now apply IH.
    + destruct (IH (Row.id x :: seen) r Hr) as [[E|Hin]|Hin].
      * right. left. exact E.
      * now left.
      * right. now right.
Qed.

(** After de-duplication no id occurs twice, and none was seen before. *)
Lemma drop_duplicates_seen_NoDup (rows : list Row.t) :
  forall seen : list (option Z),
    NoDup (map Row.id (embed_movies.drop_duplicates_seen seen rows))
    /\ forall a,
         In a (map Row.id (embed_movies.drop_duplicates_seen seen rows)) ->
         ~ In a seen.
Proof.
  induction rows as [|x rows IH]; intros seen; simpl.
  - split; [constructor | tauto].
  - destruct (existsb _ seen) eqn:Hs; [apply IH|].
    destruct (IH (Row.id x :: seen)) as [Hnd Hfresh]. simpl. split.
    + constructor; [|assumption]. intros Hin.
      apply (Hfresh _ Hin). now left.
    + intros a [E|Hin].
      * subst a. intros Hin. apply seen_In in Hin. congruence.
      * intros Ha. apply (Hfresh _ Hin). now right.
Qed.

Lemma valid_movies_NoDup (movies_df : list Row.t) :
  NoDup (map Row.id (embed_movies.valid_movies movies_df)).
Proof. apply drop_duplicates_seen_NoDup. Qed.

Lemma valid_movies_valid (movies_df : list Row.t) (r : Row.t) :
  In r (embed_movies.valid_movies movies_df) ->
  In r movies_df /\ embed_movies.is_valid r = true.
Proof.
  intros Hr. apply drop_duplicates_seen_In in Hr.
  now apply filter_In in Hr.
Qed.

(** What the mask asks of a row. *)
Lemma is_valid_spec (r : Row.t) :
  embed_movies.is_valid r = true <->
  exists i t o,
    Row.id r = Some i /\ Row.title r = Some t /\ Row.overview r = Some o
    /\ 10 < String.length o.
Proof.
  unfold embed_movies.is_valid, embed_movies.notna. split.
  - destruct (Row.id r) as [i|], (Row.title r) as [t|],
      (Row.overview r) as [o|]; simpl; try discriminate.
    intros Hlen. apply Nat.ltb_lt in Hlen. now exists i, t, o.
  - intros (i & t & o & -> & -> & -> & Hlen). simpl.
    now apply Nat.ltb_lt.
Qed.

(** C8.  A row whose overview has exactly 10 characters is in no
    [valid_movies], whatever else the frame holds; a row of the frame
    whose overview has exactly 11 characters, whose id parsed and whose
    title is present passes the mask, and its id is among the ids of
    [valid_movies].  The threshold is [len > 10]. *)
Theorem overview_length_threshold
    (movies_df : list Row.t) (row : Row.t) (o : string) :
  Row.overview row = Some o ->
  (String.length o = 10 ->
   embed_movies.is_valid row = false
   /\ ~ In row (embed_movies.valid_movies movies_df))
  /\ (String.length o = 11 ->
      Row.id row <> None -> Row.title row <> None -> In row movies_df ->
      embed_movies.is_valid row = true
      /\ In (Row.id row) (map Row.id (embed_movies.valid_movies movies_df))).
Proof.
  intros Ho. split.
  - intros Hlen.
    assert (Hinv : embed_movies.is_valid row = false).
    { destruct (embed_movies.is_valid row) eqn:Hv; [|reflexivity].
      apply is_valid_spec in Hv. destruct Hv as (i & t & o' & _ & _ & Ho' & Hl).
      rewrite Ho in Ho'. injection Ho' as <-. lia. }
    split; [assumption|]. intros Hin.
    apply valid_movies_valid in Hin. destruct Hin as [_ Hv]. congruence.
  - intros Hlen Hid Htitle Hin.
    assert (Hv : embed_movies.is_valid row = true).
    { apply is_valid_spec.
      destruct (Row.id row) as [i|]; [|congruence].
      destruct (Row.title row) as [t|]; [|congruence].
      exists i, t, o. repeat split; try assumption. lia. }
    split; [assumption|].
    destruct (drop_duplicates_seen_keeps_id
                (filter embed_movies.is_valid movies_df) [] row) as [[]|Hk].
    + apply filter_In. now split.
    + exact Hk.
Qed.

End Filter.

(** ** Ordering by distance *)

Section Ordering.
Context {C : Collaborators} {O : Float8Order C}.
Context {A : Type} (key : A -> float8).

Lemma insert_by_Permutation (x : A) (l : list A) :
  Permutation (insert_by key x l) (x :: l).
Proof.
  induction l as [|y l IH]; simpl; [reflexivity|].
  destruct (float8_le (key x) (key y)); [reflexivity|].
  rewrite IH. apply perm_swap.
Qed.

Lemma order_by_Permutation (l : list A) : Permutation (order_by key l) l.
Proof.
  induction l as [|x l IH]; simpl; [reflexivity|].
  rewrite insert_by_Permutation. now constructor.
Qed.

Lemma order_by_length (l : list A) : length (order_by key l) = length l.
Proof. apply Permutation_length, order_by_Permutation. Qed.

Lemma insert_by_sorted (x : A) (l : list A) :
  StronglySorted (fun a b => float8_le (key a) (key b) = true) l ->
  StronglySorted (fun a b => float8_le (key a) (key b) = true)
    (insert_by key x l).
Proof.
  induction 1 as [|y l Hs IH Hy]; simpl.
  - constructor; constructor.
  - destruct (float8_le (key x) (key y)) eqn:Hxy.
    + constructor; [now constructor|]. constructor; [exact Hxy|].
      revert Hy. apply Forall_impl. intros z Hz.
      exact (float8_le_trans _ _ _ Hxy Hz).
    + constructor; [exact IH|].
      apply (Permutation_Forall (x := x :: l)).
      * symmetry. apply insert_by_Permutation.
      * constructor; [|exact Hy].
        destruct (float8_le_total (key x) (key y)) as [E|E];
          [congruence | exact E].
Qed.

Lemma order_by_sorted (l : list A) :
  StronglySorted (fun a b => float8_le (key a) (key b) = true)
    (order_by key l).
Proof.
  induction l as [|x l IH]; simpl; [constructor|].
  now apply insert_by_sorted.
Qed.

End Ordering.

Section SortedLists.
Context {A : Type} (R : A -> A -> Prop).

Lemma StronglySorted_firstn (n : nat) (l : list A) :
  StronglySorted R l -> StronglySorted R (firstn n l).
Proof.
  intros Hs. revert n.
  induction Hs as [|x l Hs IH Hx]; intros [|n]; simpl; try constructor.
  - apply IH.
  - rewrite Forall_forall in *. intros y Hy. apply Hx.
    rewrite <- (firstn_skipn n l). apply in_or_app. now left.
Qed.

Lemma StronglySorted_map {B : Type} (f : B -> A) (l : list B) :
  StronglySorted (fun a b => R (f a) (f b)) l ->
  StronglySorted R (map f l).
Proof.
  induction 1 as [|x l Hs IH Hx]; simpl; constructor; [assumption|].
  rewrite Forall_forall in *. intros y Hy.
  apply in_map_iff in Hy. destruct Hy as [b [<- Hb]]. now apply Hx.
Qed.

(** Two sorted arrangements of the same values are equal when the order
    is antisymmetric. *)
Lemma sorted_Permutation_eq (l1 l2 : list A) :
  (forall a b, R a b -> R b a -> a = b) ->
  StronglySorted R l1 -> StronglySorted R l2 -> Permutation l1 l2 ->
  l1 = l2.
Proof.
  intros Hanti Hs1. revert l2.
  induction Hs1 as [|x l1 Hs1 IH Hx]; intros l2 Hs2 Hp.
  - apply Permutation_nil in Hp. now subst.
  - destruct Hs2 as [|y l2 Hs2 Hy].
    + symmetry in Hp. now apply Permutation_nil in Hp.
    + assert (E : x = y).
      { assert (Hyin : In y (x :: l1)).
        { apply (Permutation_in (l := y :: l2)); [now symmetry | now left]. }
        assert (Hxin : In x (y :: l2)).
        { apply (Permutation_in (l := x :: l1)); [assumption | now left]. }
        destruct Hyin as [E|Hyin]; [assumption|].
        destruct Hxin as [E|Hxin]; [now symmetry|].
        rewrite Forall_forall in Hx, Hy.
        apply Hanti; [now apply Hx | now apply Hy]. }
      subst y. f_equal. apply IH; [assumption|].
      now apply Permutation_cons_inv in Hp.
Qed.

End SortedLists.

(** ** The query service *)

Section Search.
Context {C : Collaborators}.

Lemma embedded_In (table : list Movie.t) (m : Movie.t) (e : vector) :
  In (m, e) (embedded table) <-> In m table /\ Movie.embedding m = Some e.
Proof.
  induction table as [|x table IH]; simpl; [tauto|].
  destruct (Movie.embedding x) as [ex|] eqn:Hx; simpl; rewrite IH; split.
  - intros [E|[Hin He]]; [|tauto].
    injection E as <- <-. split; [now left | assumption].
  - intros [[E|Hin] He]; [|tauto]. subst x. left. congruence.
  - intros [Hin He]. tauto.
  - intros [[E|Hin] He]; [|tauto]. subst x. congruence.
Qed.

Lemma embedded_Permutation (t1 t2 : list Movie.t) :
  Permutation t1 t2 -> Permutation (embedded t1) (embedded t2).
Proof.
  induction 1 as [|x l l' Hp IH|x y l|l l' l'' Hp1 IH1 Hp2 IH2]; simpl.
  - reflexivity.
  - destruct (Movie.embedding x); [now constructor | assumption].
  - destruct (Movie.embedding x), (Movie.embedding y);
      try reflexivity. apply perm_swap.
  - now transitivity (embedded l').
Qed.

(** Removing the rows without a vector changes nothing for the scan of
    [match_movies]. *)
Lemma embedded_without_null (table : list Movie.t) :
  embedded
    (filter (fun m => match Movie.embedding m with
                      | Some _ => true
                      | None => false
                      end) table)
  = embedded table.
Proof.
  induction table as [|x table IH]; simpl; [reflexivity|].
  destruct (Movie.embedding x) eqn:Hx; simpl; [|exact IH].
  now rewrite Hx, IH.
Qed.

Lemma embedded_ids_NoDup (table : list Movie.t) :
  NoDup (map Movie.id table) ->
  NoDup (map (fun me => Movie.id (fst me)) (embedded table)).
Proof.
  induction table as [|x table IH]; simpl; intros Hnd; [constructor|].
  apply NoDup_cons_iff in Hnd. destruct Hnd as [Hx Hnd].
  destruct (Movie.embedding x); simpl; [|now apply IH].
  constructor; [|now apply IH]. intros Hin. apply Hx.
  apply in_map_iff in Hin. destruct Hin as [[m e] [E Hin]]. simpl in E.
  apply embedded_In in Hin. apply in_map_iff. exists m. tauto.
Qed.

(** A request with a query that is not blank, answered by the provider:
    the outcome is that of [match_movies] on the table. *)
Lemma search_movies_run
    (request : SearchRequest) (w : World) (qv : vector) (rest : list vector) :
  Py.all_space (query request) = false ->
  embeddings_create main.EMBEDDING_MODEL [query request] = Some (qv :: rest) ->
  fst (main.search_movies request w)
  = match match_movies qv (limit request) (movies w) with
    | Some rows => Return (mkSearchResponse (map main.movie_result rows))
    | None => Raise APIError
    end.
Proof.
  intros Hq He. unfold main.search_movies.
  rewrite not_strip_blank, Hq.
  unfold bind, openai_embeddings_create. rewrite He. simpl.
  unfold rpc_match_movies. simpl.
  destruct (match_movies qv (limit request) (movies w)); reflexivity.
Qed.

(** [<=>] has nothing to refuse when the stored vectors have the
    dimension of the query vector. *)
Lemma dimensions_agree (qv : vector) (table : list Movie.t) :
  (forall m e,
     In m table -> Movie.embedding m = Some e ->
     dimensions e = dimensions qv) ->
  existsb (fun me => negb (Nat.eqb (dimensions (snd me)) (dimensions qv)))
    (embedded table)
  = false.
Proof.
  intros Hdim. destruct (existsb _ (embedded table)) eqn:Hex; [|reflexivity].
  apply existsb_exists in Hex. destruct Hex as ([m e] & Hme & Hne).
  apply embedded_In in Hme. destruct Hme as [Hm He].
  simpl in Hne. rewrite (Hdim m e Hm He), Nat.eqb_refl in Hne.
  discriminate Hne.
Qed.

(** [match_movies] answers a limit of 0, and any limit in the range of
    [INT] when the stored vectors have the dimension of the query
    vector. *)
Lemma match_movies_answers
    (qv : vector) (match_count : Z) (table : list Movie.t) :
  (0 <= match_count <= 2147483647)%Z ->
  match_count = 0%Z
  \/ (forall m e,
        In m table -> Movie.embedding m = Some e ->
        dimensions e = dimensions qv) ->
  match_movies qv match_count table
  = Some (map (select qv)
            (firstn (Z.to_nat match_count)
               (order_by (distance qv) (embedded table)))).
Proof.
  intros Hrange Hcase. unfold match_movies.
  assert (Hin : ((match_count <? 0) || (2147483647 <? match_count))%Z
                = false).
  { apply orb_false_iff. split; apply Z.ltb_ge; lia. }
  rewrite Hin. destruct Hcase as [->|Hdim]; [reflexivity|].
  now rewrite (dimensions_agree qv table Hdim), andb_false_r.
Qed.

(** A request that returns went through every step. *)
Lemma search_movies_returns
    (request : SearchRequest) (w : World) (resp : SearchResponse) :
  fst (main.search_movies request w) = Return resp ->
  exists qv rest,
    Py.all_space (query request) = false
    /\ embeddings_create main.EMBEDDING_MODEL [query request]
       = Some (qv :: rest)
    /\ (0 <= limit request <= 2147483647)%Z
    /\ results resp
       = map main.movie_result
           (map (select qv)
              (firstn (Z.to_nat (limit request))
                 (order_by (distance qv) (embedded (movies w))))).
Proof.
  unfold main.search_movies. rewrite not_strip_blank.
  destruct (Py.all_space (query request)) eqn:Hq; [discriminate|].
  unfold bind, openai_embeddings_create.
  destruct (embeddings_create main.EMBEDDING_MODEL [query request])
    as [[|qv rest]|] eqn:He; simpl; try discriminate.
  unfold rpc_match_movies, match_movies. simpl.
  destruct ((limit request <? 0) || (2147483647 <? limit request))%Z eqn:Hl;
    simpl; [discriminate|].
  destruct ((0 <? limit request)%Z && existsb _ (embedded (movies w)));
    simpl; [discriminate|].
  intros E. injection E as <-. exists qv, rest.
  apply orb_false_iff in Hl. destruct Hl as [Hlo Hhi].
  apply Z.ltb_ge in Hlo, Hhi. repeat split; assumption.
Qed.




(** Every returned result is the projection of a stored row that has a
    vector. *)
Lemma results_from_rows
    (qv : vector) (n : nat) (table : list Movie.t) (r : MovieResult.t) :
  In r (map main.movie_result
          (map (select qv)
             (firstn n (order_by (distance qv) (embedded table))))) ->
  exists m e,
    In m table /\ Movie.embedding m = Some e
    /\ r = main.movie_result (select qv (m, e)).
Proof.
  intros Hr. apply in_map_iff in Hr. destruct Hr as [row [<- Hrow]].
  apply in_map_iff in Hrow. destruct Hrow as [[m e] [<- Hme]].
  exists m, e.
  assert (Hin : In (m, e) (embedded table)).
  { apply (Permutation_in (l := order_by (distance qv) (embedded table))).
    - apply order_by_Permutation.
    - rewrite <- (firstn_skipn n). apply in_or_app. now left. }
  apply embedded_In in Hin. tauto.
Qed.

(** C4.  A query that is empty or all white space is answered with the
    [HTTPException] of status 400, and the world is left as it was: no
    embedding call and no store search is logged. *)
Theorem blank_query_rejected (request : SearchRequest) (w : World) :
  Py.all_space (query request) = true ->
  main.search_movies request w
  = (Raise (HTTPException 400 "Query cannot be empty"), w)
  /\ status_code (fst (main.search_movies request w)) = 400
  /\ calls (snd (main.search_movies request w)) = calls w.
Proof.
  intros Hq.
  assert (E : main.search_movies request w
              = (Raise (HTTPException 400 "Query cannot be empty"), w)).
  { unfold main.search_movies. now rewrite not_strip_blank, Hq. }
  rewrite E. auto.
Qed.

End Search.

(** ** Ranking *)

Section Ranking.
Context {C : Collaborators} {O : Float8Order C}.

Lemma StronglySorted_impl {A : Type} (R R' : A -> A -> Prop) (l : list A) :
  (forall a b, R a b -> R' a b) ->
  StronglySorted R l -> StronglySorted R' l.
Proof.
  intros Himpl. induction 1 as [|x l Hs IH Hx]; constructor; [assumption|].
  revert Hx. apply Forall_impl. intros y. apply Himpl.
Qed.

Lemma NoDup_map_In_eq {A B : Type} (f : A -> B) (l : list A) (a b : A) :
  NoDup (map f l) -> In a l -> In b l -> f a = f b -> a = b.
Proof.
  induction l as [|x l IH]; simpl; intros Hnd Ha Hb E; [contradiction|].
  apply NoDup_cons_iff in Hnd. destruct Hnd as [Hx Hnd].
  destruct Ha as [Ha|Ha], Hb as [Hb|Hb]; subst.
  - reflexivity.
  - exfalso. apply Hx. rewrite E. now apply in_map.
  - exfalso. apply Hx. rewrite <- E. now apply in_map.
  - now apply IH.
Qed.

(** The similarity column of the response is [1 - d] of the distance
    column of the rows it was built from. *)
Lemma similarity_column (qv : vector) (l : list (Movie.t * vector)) :
  map MovieResult.similarity (map main.movie_result (map (select qv) l))
  = map one_minus (map (distance qv) l).
Proof. rewrite !map_map. now apply map_ext. Qed.

Lemma id_column (qv : vector) (l : list (Movie.t * vector)) :
  map MovieResult.id (map main.movie_result (map (select qv) l))
  = map (fun me => Movie.id (fst me)) l.
Proof. rewrite !map_map. now apply map_ext. Qed.

(** The distance column after [ORDER BY] does not depend on the order of
    the scan. *)
Lemma distance_column_scan_order
    (qv : vector) (l1 l2 : list (Movie.t * vector)) :
  Permutation l1 l2 ->
  map (distance qv) (order_by (distance qv) l1)
  = map (distance qv) (order_by (distance qv) l2).
Proof.
  intros Hp.
  apply (sorted_Permutation_eq (fun a b => float8_le a b = true)).
  - apply float8_le_antisym.
  - apply StronglySorted_map, order_by_sorted.
  - apply StronglySorted_map, order_by_sorted.
  - apply Permutation_map.
    rewrite !order_by_Permutation. exact Hp.
Qed.

(** What the table gives a search is its vectors: the column of
    distances after [ORDER BY] is the same for two tables with the same
    vectors. *)
Lemma embedded_vectors (table : list Movie.t) :
  map snd (embedded table)
  = flat_map (fun o : option vector =>
                match o with
                | Some e => [e]
                | None => []
                end)
      (map Movie.embedding table).
Proof.
  induction table as [|m table IH]; simpl; [reflexivity|].
  destruct (Movie.embedding m); simpl; now rewrite IH.
Qed.

Lemma embedded_vectors_Permutation (t1 t2 : list Movie.t) :
  Permutation (map Movie.embedding t1) (map Movie.embedding t2) ->
  Permutation (map snd (embedded t1)) (map snd (embedded t2)).
Proof.
  intros Hp. rewrite !embedded_vectors. now apply Permutation_flat_map.
Qed.

Lemma distance_column_vectors
    (qv : vector) (l1 l2 : list (Movie.t * vector)) :
  Permutation (map snd l1) (map snd l2) ->
  map (distance qv) (order_by (distance qv) l1)
  = map (distance qv) (order_by (distance qv) l2).
Proof.
  intros Hp.
  apply (sorted_Permutation_eq (fun a b => float8_le a b = true)).
  - apply float8_le_antisym.
  - apply StronglySorted_map, order_by_sorted.
  - apply StronglySorted_map, order_by_sorted.
  - rewrite !order_by_Permutation.
    change (distance qv) with (fun me : Movie.t * vector =>
                                 cosine_distance (snd me) qv).
    rewrite <- !(map_map snd (fun e => cosine_distance e qv)).
    now apply Permutation_map.
Qed.

Lemma existsb_Permutation {A : Type} (p : A -> bool) (l1 l2 : list A) :
  Permutation l1 l2 -> existsb p l1 = existsb p l2.
Proof.
  induction 1 as [|x l l' Hp IH|x y l|l l' l'' Hp1 IH1 Hp2 IH2]; simpl.
  - reflexivity.
  - now rewrite IH.
  - now destruct (p x), (p y).
  - congruence.
Qed.

Lemma existsb_after_map {A B : Type} (p : B -> bool) (f : A -> B)
    (l : list A) :
  existsb p (map f l) = existsb (fun x => p (f x)) l.
Proof.
  induction l as [|x l IH]; simpl; [reflexivity|]. now rewrite IH.
Qed.

(** The outcome of a search on two tables with the same vectors: the
    same exception, or responses with the same similarities. *)
Lemma search_same_vectors (request : SearchRequest) (w1 w2 : World) :
  Permutation (map Movie.embedding (movies w1))
    (map Movie.embedding (movies w2)) ->
  (forall e,
     fst (main.search_movies request w1) = Raise e ->
     fst (main.search_movies request w2) = Raise e)
  /\ forall resp,
       fst (main.search_movies request w1) = Return resp ->
       exists resp',
         fst (main.search_movies request w2) = Return resp'
         /\ map MovieResult.similarity (results resp')
            = map MovieResult.similarity (results resp).
Proof.
  intros Hp. apply embedded_vectors_Permutation in Hp.
  assert (Hex : forall qv,
    existsb (fun me => negb (Nat.eqb (dimensions (snd me)) (dimensions qv)))
      (embedded (movies w1))
    = existsb (fun me => negb (Nat.eqb (dimensions (snd me)) (dimensions qv)))
        (embedded (movies w2))).
  { intros qv.
    transitivity
      (existsb (fun e => negb (Nat.eqb (dimensions e) (dimensions qv)))
         (map snd (embedded (movies w1)))).
    - symmetry.
      exact (existsb_after_map
               (fun e => negb (Nat.eqb (dimensions e) (dimensions qv)))
               snd _).
    - rewrite (existsb_Permutation _ _ _ Hp).
      exact (existsb_after_map
               (fun e => negb (Nat.eqb (dimensions e) (dimensions qv)))
               snd _). }
  assert (Hcol : forall qv n,
    map MovieResult.similarity
      (map main.movie_result
         (map (select qv)
            (firstn n (order_by (distance qv) (embedded (movies w2))))))
    = map MovieResult.similarity
        (map main.movie_result
           (map (select qv)
              (firstn n (order_by (distance qv) (embedded (movies w1))))))).
  { intros qv n. rewrite !similarity_column, <- !firstn_map.
    f_equal. f_equal. apply distance_column_vectors. now symmetry. }
  unfold main.search_movies.
  destruct (negb (Py.truthy (Py.strip (query request))));
    [split; [auto | discriminate]|].
  unfold bind, openai_embeddings_create.
  destruct (embeddings_create main.EMBEDDING_MODEL [query request])
    as [[|qv rest]|]; simpl; try (split; [auto | discriminate]).
  unfold rpc_match_movies, match_movies. cbn [movies log].
  rewrite (Hex qv).
  destruct ((limit request <? 0) || (2147483647 <? limit request))%Z;
    simpl; [split; [auto | discriminate]|].
  destruct ((0 <? limit request)%Z && existsb _ (embedded (movies w2)));
    simpl; [split; [auto | discriminate]|].
  split; [discriminate|].
  intros resp E. injection E as <-. eexists. split; [reflexivity|].
  apply Hcol.
Qed.

(** C3.  For a request with a positive limit, a response, when there is
    one, has at most [limit] results, in non-increasing order of
    similarity, and every result carries the id of a stored row and, as
    its similarity, [1 - (embedding <=> query_embedding)] for that row's
    vector and the vector the provider gave for the query.  There is a
    response whenever the query is not blank, the limit is in the range
    of the [INT] parameter [match_count], the provider answers, and the
    stored vectors have the dimension of the vector it gives. *)
Theorem search_bounded_and_ranked (request : SearchRequest) (w : World) :
  (0 < limit request)%Z ->
  (forall resp : SearchResponse,
     fst (main.search_movies request w) = Return resp ->
     length (results resp) <= Z.to_nat (limit request)
     /\ StronglySorted
          (fun a b =>
             float8_le (MovieResult.similarity b) (MovieResult.similarity a)
             = true)
          (results resp)
     /\ exists qv rest,
          embeddings_create main.EMBEDDING_MODEL [query request]
          = Some (qv :: rest)
          /\ Forall
               (fun r =>
                  exists m e,
                    In m (movies w) /\ Movie.embedding m = Some e
                    /\ MovieResult.id r = Movie.id m
                    /\ MovieResult.similarity r
                       = one_minus (cosine_distance e qv))
               (results resp))
  /\ (Py.all_space (query request) = false ->
      (limit request <= 2147483647)%Z ->
      forall qv rest,
        embeddings_create main.EMBEDDING_MODEL [query request]
        = Some (qv :: rest) ->
        (forall m e,
           In m (movies w) -> Movie.embedding m = Some e ->
           dimensions e = dimensions qv) ->
        exists resp, fst (main.search_movies request w) = Return resp).
Proof.
  intros Hpos. split.
  - intros resp Hret.
    destruct (search_movies_returns request w resp Hret)
      as (qv & rest & _ & He & _ & Hres).
    rewrite Hres. split; [|split].
    + rewrite !length_map. apply firstn_le_length.
    + apply StronglySorted_map, StronglySorted_map, StronglySorted_firstn.
      apply (StronglySorted_impl
               (fun a b => float8_le (distance qv a) (distance qv b) = true)).
      * intros a b Hab. simpl. now apply one_minus_antitone.
      * apply order_by_sorted.
    + exists qv, rest. split; [exact He|].
      apply Forall_forall. intros r Hr.
      destruct (results_from_rows qv _ _ r Hr) as (m & e & Hin & Hm & ->).
      exists m, e. repeat split; assumption.
  - intros Hq Hmax qv rest He Hdim.
    rewrite (search_movies_run request w qv rest Hq He).
    rewrite match_movies_answers; [eauto | lia | now right].
Qed.

(** C5, as the code has it.  [ORDER BY] has the distance as its only key:
    no id or other secondary key decides between rows of equal distance.
    Under the primary key, two returned rows whose stored vectors are equal
    carry equal similarity; and the column of similarities the response
    lists is the same for every order in which the scan may deliver the
    rows: which of the tied rows comes first is all that can change. *)
Theorem ties_keep_similarity_not_id_order
    (request : SearchRequest) (w1 w2 : World) (resp1 resp2 : SearchResponse) :
  NoDup (map Movie.id (movies w1)) ->
  Permutation (movies w1) (movies w2) ->
  fst (main.search_movies request w1) = Return resp1 ->
  fst (main.search_movies request w2) = Return resp2 ->
  map MovieResult.similarity (results resp1)
  = map MovieResult.similarity (results resp2)
  /\ forall (m1 m2 : Movie.t) (r1 r2 : MovieResult.t),
       In m1 (movies w1) -> In m2 (movies w1) ->
       Movie.embedding m1 = Movie.embedding m2 ->
       In r1 (results resp1) -> In r2 (results resp1) ->
       MovieResult.id r1 = Movie.id m1 -> MovieResult.id r2 = Movie.id m2 ->
       MovieResult.similarity r1 = MovieResult.similarity r2.
Proof.
  intros Hnd Hp Hret1 Hret2.
  destruct (search_movies_returns request w1 resp1 Hret1)
    as (qv & rest & _ & He1 & _ & Hres1).
  destruct (search_movies_returns request w2 resp2 Hret2)
    as (qv' & rest' & _ & He2 & _ & Hres2).
  rewrite He1 in He2. injection He2 as <- <-. split.
  - rewrite Hres1, Hres2, !similarity_column. f_equal.
    rewrite <- !firstn_map. f_equal.
    apply distance_column_scan_order. now apply embedded_Permutation.
  - intros m1 m2 r1 r2 Hm1 Hm2 Hemb Hr1 Hr2 Hid1 Hid2.
    rewrite Hres1 in Hr1, Hr2.
    destruct (results_from_rows qv _ _ r1 Hr1) as (n1 & e1 & Hn1 & Hv1 & ->).
    destruct (results_from_rows qv _ _ r2 Hr2) as (n2 & e2 & Hn2 & Hv2 & ->).
    simpl in Hid1, Hid2.
    assert (E1 : n1 = m1) by now apply (NoDup_map_In_eq Movie.id (movies w1)).
    assert (E2 : n2 = m2) by now apply (NoDup_map_In_eq Movie.id (movies w1)).
    subst n1 n2. simpl. congruence.
Qed.

End Ranking.

(** ** Limits, missing vectors and missing genres *)

Section Limits.
Context {C : Collaborators}.

(** The outcome of a search depends on the table through its rows with a
    vector only. *)
Lemma search_movies_embedded (request : SearchRequest) (w1 w2 : World) :
  embedded (movies w1) = embedded (movies w2) ->
  fst (main.search_movies request w1) = fst (main.search_movies request w2).
Proof.
  intros E. unfold main.search_movies.
  destruct (negb (Py.truthy (Py.strip (query request)))); [reflexivity|].
  unfold bind, openai_embeddings_create.
  destruct (embeddings_create main.EMBEDDING_MODEL [query request])
    as [[|qv rest]|]; simpl; try reflexivity.
  unfold rpc_match_movies, match_movies. cbn [movies log]. rewrite E.
  destruct ((limit request <? 0) || (2147483647 <? limit request))%Z;
    [reflexivity|].
  destruct ((0 <? limit request)%Z && existsb _ (embedded (movies w2)));
    reflexivity.
Qed.

(** C6, as the code has it.  [limit] has no validator.  For a query that
    is not blank and that the provider embeds: with [limit = 0] the
    service answers 200 with an empty result list; a negative [limit] is
    passed to [match_movies] like any other, where [LIMIT] refuses it, and
    the exception leaves the handler as status 500, not as a validation
    error; with [limit] at least the number of rows that have a vector
    and in the range of the [INT] parameter [match_count], and stored
    vectors of the dimension of the query vector, the response lists
    every one of those rows; a [limit] past the range of [INT] is refused
    like a negative one, with status 500. *)
Theorem limit_is_not_validated
    (request : SearchRequest) (w : World) (qv : vector) (rest : list vector) :
  Py.all_space (query request) = false ->
  embeddings_create main.EMBEDDING_MODEL [query request] = Some (qv :: rest) ->
  (limit request = 0%Z ->
   fst (main.search_movies request w) = Return (mkSearchResponse [])
   /\ status_code (fst (main.search_movies request w)) = 200)
  /\ ((limit request < 0)%Z ->
      fst (main.search_movies request w) = Raise APIError
      /\ status_code (fst (main.search_movies request w)) = 500
      /\ In (RpcMatchMovies qv (limit request))
           (calls (snd (main.search_movies request w))))
  /\ ((Z.of_nat (length (embedded (movies w))) <= limit request
       <= 2147483647)%Z ->
      (forall m e,
         In m (movies w) -> Movie.embedding m = Some e ->
         dimensions e = dimensions qv) ->
      exists resp,
        fst (main.search_movies request w) = Return resp
        /\ length (results resp) = length (embedded (movies w))
        /\ Permutation (map MovieResult.id (results resp))
             (map (fun me => Movie.id (fst me)) (embedded (movies w))))
  /\ ((2147483647 < limit request)%Z ->
      fst (main.search_movies request w) = Raise APIError
      /\ status_code (fst (main.search_movies request w)) = 500).
Proof.
  intros Hq He.
  pose proof (search_movies_run request w qv rest Hq He) as Hrun.
  split; [|split; [|split]].
  - intros Hl. rewrite Hrun, match_movies_answers; [|lia|now left].
    rewrite Hl. simpl. auto.
  - intros Hl. apply Z.ltb_lt in Hl. unfold match_movies in Hrun.
    rewrite Hrun, Hl. simpl. repeat split.
    unfold main.search_movies. rewrite not_strip_blank, Hq.
    unfold bind, openai_embeddings_create. rewrite He. simpl.
    unfold rpc_match_movies, match_movies. rewrite Hl. simpl.
    apply in_or_app. right. now left.
  - intros Hl Hdim.
    rewrite Hrun, match_movies_answers; [|lia|now right].
    eexists. split; [reflexivity|].
    simpl. rewrite firstn_all2 by (rewrite order_by_length; lia).
    split.
    + now rewrite !length_map, order_by_length.
    + rewrite id_column. apply Permutation_map, order_by_Permutation.
  - intros Hl. apply Z.ltb_lt in Hl. unfold match_movies in Hrun.
    rewrite Hrun, Hl, orb_true_r. simpl. auto.
Qed.

(** C7.  Every result carries the id of a stored row that has a vector;
    under the primary key, the id of a row without a vector is the id of
    no result; and the outcome of a search, response or exception, is the
    one the same request has on the table with those rows removed: they
    cause no error. *)
Theorem null_vectors_excluded (request : SearchRequest) (w : World) :
  NoDup (map Movie.id (movies w)) ->
  (forall (resp : SearchResponse) (m : Movie.t),
     fst (main.search_movies request w) = Return resp ->
     In m (movies w) -> Movie.embedding m = None ->
     ~ In (Movie.id m) (map MovieResult.id (results resp)))
  /\ (forall resp : SearchResponse,
        fst (main.search_movies request w) = Return resp ->
        Forall
          (fun r =>
             exists m e,
               In m (movies w) /\ Movie.embedding m = Some e
               /\ MovieResult.id r = Movie.id m)
          (results resp))
  /\ fst (main.search_movies request w)
     = fst (main.search_movies request
              (mkWorld
                 (filter (fun m => match Movie.embedding m with
                                   | Some _ => true
                                   | None => false
                                   end) (movies w))
                 (calls w))).
Proof.
  intros Hnd. split; [|split].
  - intros resp m Hret Hm Hnull Hin.
    destruct (search_movies_returns request w resp Hret)
      as (qv & rest & _ & _ & _ & Hres).
    apply in_map_iff in Hin. destruct Hin as [r [Hid Hr]].
    rewrite Hres in Hr.
    destruct (results_from_rows qv _ _ r Hr) as (m' & e & Hm' & He & ->).
    simpl in Hid.
    assert (E : m' = m) by now apply (NoDup_map_In_eq Movie.id (movies w)).
    subst m'. congruence.
  - intros resp Hret.
    destruct (search_movies_returns request w resp Hret)
      as (qv & rest & _ & _ & _ & Hres).
    rewrite Hres. apply Forall_forall. intros r Hr.
    destruct (results_from_rows qv _ _ r Hr) as (m & e & Hm & He & ->).
    exists m, e. repeat split; assumption.
  - apply search_movies_embedded. simpl.
    symmetry. apply embedded_without_null.
Qed.

(** C10.  Every result of a response carries the id of a stored row with
    a vector and that row's genres, with the empty list in the place of a
    NULL column. *)
Theorem null_genres_become_empty
    (request : SearchRequest) (w : World) (resp : SearchResponse) :
  fst (main.search_movies request w) = Return resp ->
  Forall
    (fun r =>
       exists m,
         In m (movies w) /\ Movie.embedding m <> None
         /\ MovieResult.id r = Movie.id m
         /\ MovieResult.genres r
            = match Movie.genres m with
              | Some genres => genres
              | None => []
              end)
    (results resp).
Proof.
  intros Hret.
  destruct (search_movies_returns request w resp Hret)
    as (qv & rest & _ & _ & _ & Hres).
  rewrite Hres. apply Forall_forall. intros r Hr.
  destruct (results_from_rows qv _ _ r Hr) as (m & e & Hm & He & ->).
  exists m. repeat split; [assumption | congruence |].
  simpl. now destruct (Movie.genres m) as [[|g gs]|].
Qed.

End Limits.

(** ** The id-keyed upsert *)

Section Upsert.
Context {C : Collaborators}.

Lemma upsert_row_ids (r : Movie.t) (table : list Movie.t) :
  map Movie.id (upsert_row r table)
  = if existsb (fun m => Z.eqb (Movie.id m) (Movie.id r)) table
    then map Movie.id table
    else map Movie.id table ++ [Movie.id r].
Proof.
  unfold upsert_row. destruct (existsb _ table).
  - rewrite map_map. apply map_ext. intros m.
    destruct (Z.eqb_spec (Movie.id m) (Movie.id r)); congruence.
  - now rewrite map_app.
Qed.

(** The primary key is kept: an upsert brings no second row of an id. *)
Lemma upsert_row_NoDup (r : Movie.t) (table : list Movie.t) :
  NoDup (map Movie.id table) -> NoDup (map Movie.id (upsert_row r table)).
Proof.
  intros Hnd. rewrite upsert_row_ids.
  destruct (existsb _ table) eqn:Hex; [assumption|].
  apply NoDup_app; [assumption | repeat constructor; simpl; tauto |].
  intros i Hi [<-|[]].
  apply in_map_iff in Hi. destruct Hi as [m [E Hm]].
  assert (Hex' : existsb (fun m => Z.eqb (Movie.id m) (Movie.id r)) table
                 = true).
  { apply existsb_exists. exists m. split; [assumption|].
    now apply Z.eqb_eq. }
  congruence.
Qed.

Lemma upsert_rows_NoDup (records : list Movie.t) :
  forall table : list Movie.t,
    NoDup (map Movie.id table) ->
    NoDup (map Movie.id (upsert_rows records table)).
Proof.
  unfold upsert_rows.
  induction records as [|r records IH]; intros table Hnd; simpl;
    [assumption|].
  apply IH. now apply upsert_row_NoDup.
Qed.

(** After the upsert of [r], [r] is in the table and is the only row of
    its id. *)
Lemma upsert_row_holds (r : Movie.t) (table : list Movie.t) :
  In r (upsert_row r table)
  /\ forall x, In x (upsert_row r table) ->
               Movie.id x = Movie.id r -> x = r.
Proof.
  unfold upsert_row. destruct (existsb _ table) eqn:Hex.
  - split.
    + apply existsb_exists in Hex. destruct Hex as [m [Hm Hid]].
      apply in_map_iff. exists m. now rewrite Hid.
    + intros x Hx Hid. apply in_map_iff in Hx.
      destruct Hx as [m [E Hm]].
      destruct (Z.eqb_spec (Movie.id m) (Movie.id r)); congruence.
  - split.
    + apply in_or_app. right. now left.
    + intros x Hx Hid. apply in_app_or in Hx.
      destruct Hx as [Hx|[E|[]]]; [|now symmetry].
      assert (Hex' : existsb (fun m => Z.eqb (Movie.id m) (Movie.id r)) table
                     = true).
      { apply existsb_exists. exists x. split; [assumption|].
        now apply Z.eqb_eq. }
      congruence.
Qed.

(** The upsert of a row of another id leaves that standing. *)
Lemma upsert_row_keeps (r q : Movie.t) (table : list Movie.t) :
  Movie.id q <> Movie.id r ->
  (In r table /\ forall x, In x table -> Movie.id x = Movie.id r -> x = r) ->
  In r (upsert_row q table)
  /\ forall x, In x (upsert_row q table) ->
               Movie.id x = Movie.id r -> x = r.
Proof.
  intros Hne [Hin Hall]. unfold upsert_row.
  destruct (existsb _ table) eqn:Hex.
  - split.
    + apply in_map_iff. exists r. split; [|assumption].
      destruct (Z.eqb_spec (Movie.id r) (Movie.id q)); congruence.
    + intros x Hx Hid. apply in_map_iff in Hx.
      destruct Hx as [m [E Hm]].
      destruct (Z.eqb_spec (Movie.id m) (Movie.id q)).
      * subst x. congruence.
      * subst x. now apply Hall.
  - split.
    + apply in_or_app. now left.
    + intros x Hx Hid. apply in_app_or in Hx.
      destruct Hx as [Hx|[E|[]]]; [now apply Hall | congruence].
Qed.

Lemma upsert_rows_keeps (r : Movie.t) (records : list Movie.t) :
  forall table : list Movie.t,
    ~ In (Movie.id r) (map Movie.id records) ->
    (In r table
     /\ forall x, In x table -> Movie.id x = Movie.id r -> x = r) ->
    In r (upsert_rows records table)
    /\ forall x, In x (upsert_rows records table) ->
                 Movie.id x = Movie.id r -> x = r.
Proof.
  unfold upsert_rows.
  induction records as [|q records IH]; intros table Hnot Hheld; simpl;
    [assumption|].
  apply IH.
  - intros Hin. apply Hnot. now right.
  - apply upsert_row_keeps; [|assumption].
    intros E. apply Hnot. left. exact E.
Qed.

(** After the upsert of records of distinct ids, each of them is in the
    table and is the only row of its id. *)
Lemma upsert_rows_hold (records : list Movie.t) :
  forall table : list Movie.t,
    NoDup (map Movie.id records) ->
    forall r, In r records ->
      In r (upsert_rows records table)
      /\ forall x, In x (upsert_rows records table) ->
                   Movie.id x = Movie.id r -> x = r.
Proof.
  induction records as [|q records IH]; intros table Hnd r Hr;
    [contradiction|].
  simpl in Hnd. apply NoDup_cons_iff in Hnd. destruct Hnd as [Hq Hnd].
  change (upsert_rows (q :: records) table)
    with (upsert_rows records (upsert_row q table)).
  destruct Hr as [<-|Hr].
  - apply upsert_rows_keeps; [assumption | apply upsert_row_holds].
  - now apply IH.
Qed.

(** The upsert of a row that stands as the only row of its id changes
    nothing. *)
Lemma upsert_row_again (r : Movie.t) (table : list Movie.t) :
  In r table ->
  (forall x, In x table -> Movie.id x = Movie.id r -> x = r) ->
  upsert_row r table = table.
Proof.
  intros Hin Hall. unfold upsert_row.
  assert (Hex : existsb (fun m => Z.eqb (Movie.id m) (Movie.id r)) table
                = true).
  { apply existsb_exists. exists r. split; [assumption|]. apply Z.eqb_refl. }
  rewrite Hex. rewrite <- (map_id table) at 2. apply map_ext_in.
  intros m Hm. destruct (Z.eqb_spec (Movie.id m) (Movie.id r)) as [E|];
    [|reflexivity].
  symmetry. now apply Hall.
Qed.

Lemma upsert_rows_again (records : list Movie.t) (table : list Movie.t) :
  (forall r, In r records ->
     In r table
     /\ forall x, In x table -> Movie.id x = Movie.id r -> x = r) ->
  upsert_rows records table = table.
Proof.
  unfold upsert_rows.
  induction records as [|q records IH]; intros Hheld; simpl; [reflexivity|].
  destruct (Hheld q (or_introl eq_refl)) as [Hin Hall].
  rewrite (upsert_row_again q table Hin Hall).
  apply IH. intros r Hr. apply Hheld. now right.
Qed.

(** The upsert of records of distinct ids is idempotent. *)
Lemma upsert_rows_idempotent (records : list Movie.t) (table : list Movie.t) :
  NoDup (map Movie.id records) ->
  upsert_rows records (upsert_rows records table)
  = upsert_rows records table.
Proof.
  intros Hnd. apply upsert_rows_again.
  intros r Hr. now apply upsert_rows_hold.
Qed.

Lemma upsert_rows_app (r1 r2 : list Movie.t) (table : list Movie.t) :
  upsert_rows (r1 ++ r2) table = upsert_rows r2 (upsert_rows r1 table).
Proof. unfold upsert_rows. apply fold_left_app. Qed.

End Upsert.

(** ** The batch loop *)

Section Batches.
Context {C : Collaborators}.

Lemma firstn_add {A : Type} (a b : nat) (l : list A) :
  firstn (a + b) l = firstn a l ++ firstn b (skipn a l).
Proof.
  revert l. induction a as [|a IH]; intros l; simpl; [reflexivity|].
  destruct l as [|x l]; simpl.
  - now rewrite firstn_nil.
  - now rewrite IH.
Qed.

(** [iloc[start:min(start + size, total)]] is the [size] rows from
    [start] on, or the rows that are left. *)
Lemma slice_batch {A : Type} (start size : nat) (l : list A) :
  Py.slice start (Nat.min (start + size) (length l)) l
  = firstn size (skipn start l).
Proof.
  unfold Py.slice.
  destruct (Nat.le_gt_cases (start + size) (length l)) as [Hle|Hgt].
  - f_equal. lia.
  - rewrite !firstn_all2; [reflexivity | |]; rewrite length_skipn; lia.
Qed.

Lemma world_eta (w : World) : mkWorld (movies w) (calls w ++ []) = w.
Proof. destruct w. simpl. now rewrite app_nil_r. Qed.

(** The records of a batch carry the ids of its rows. *)
Lemma make_records_ids (batch : list (Row.t * string)) :
  forall (idx : nat) (embeddings : list vector) (records : list Movie.t),
    embed_movies.make_records idx batch embeddings = Return records ->
    map (fun r => Some (Movie.id r)) records
    = map (fun b => Row.id (fst b)) batch.
Proof.
  induction batch as [|[row text] batch IH]; intros idx es records; simpl.
  - intros E. now injection E as <-.
  - destruct (nth_error es idx) as [e|]; [|discriminate].
    unfold embed_movies.make_record.
    destruct (Row.id row) as [i|] eqn:Hid; [|discriminate].
    destruct (embed_movies.make_records (S idx) batch es) as [rs|] eqn:Hrs;
      [|discriminate].
    intros E. injection E as <-. simpl. f_equal. now apply (IH (S idx) es).
Qed.

Lemma apply_build_embedding_text_rows (rows : list Row.t) :
  forall frame : list (Row.t * string),
    embed_movies.apply_build_embedding_text rows = Return frame ->
    map fst frame = rows.
Proof.
  induction rows as [|r rows IH]; intros frame; simpl.
  - intros E. now injection E as <-.
  - destruct (embed_movies.build_embedding_text r); [|discriminate].
    destruct (embed_movies.apply_build_embedding_text rows) as [rest|];
      [|discriminate].
    intros E. injection E as <-. simpl. f_equal. now apply IH.
Qed.

(** One turn of the loop, on any world: either it upserts the records of
    the batch, which carry the ids of the batch's rows, or it raises and
    the table is as before. *)
Lemma process_batch_run (frame : list (Row.t * string)) (start : nat) :
  exists (records : list Movie.t) (o : outcome unit) (made : list call),
    (forall w : World,
       embed_movies.process_batch frame start w
       = (o, mkWorld (upsert_rows records (movies w)) (calls w ++ made)))
    /\ ((o = Return tt
         /\ map (fun r => Some (Movie.id r)) records
            = firstn embed_movies.BATCH_SIZE
                (skipn start (map (fun b => Row.id (fst b)) frame)))
        \/ ((exists e, o = Raise e) /\ records = [])).
Proof.
  unfold embed_movies.process_batch. rewrite slice_batch.
  set (batch := firstn embed_movies.BATCH_SIZE (skipn start frame)).
  unfold embed_movies.get_embeddings, bind, openai_embeddings_create, lift,
    table_upsert.
  destruct (embeddings_create embed_movies.EMBEDDING_MODEL (map snd batch))
    as [es|] eqn:He.
  - destruct (embed_movies.make_records 0 batch es) as [records|e] eqn:Hr.
    + destruct (forallb fits_columns records) eqn:Hfit.
      * exists records, (Return tt),
          [EmbeddingsCreate embed_movies.EMBEDDING_MODEL (map snd batch);
           Upsert (map Movie.id records)].
        split.
        -- intros w. simpl. now rewrite <- app_assoc.
        -- left. split; [reflexivity|].
           rewrite (make_records_ids batch 0 es records Hr).
           unfold batch. now rewrite <- firstn_map, <- skipn_map.
      * exists [], (Raise APIError),
          [EmbeddingsCreate embed_movies.EMBEDDING_MODEL (map snd batch);
           Upsert (map Movie.id records)].
        split; [|right; eauto].
        intros w. simpl. now rewrite <- app_assoc.
    + exists [], (Raise e),
        [EmbeddingsCreate embed_movies.EMBEDDING_MODEL (map snd batch)].
      split; [reflexivity|]. right. eauto.
  - exists [], (Raise OpenAIError),
      [EmbeddingsCreate embed_movies.EMBEDDING_MODEL (map snd batch)].
    split; [reflexivity|]. right. eauto.
Qed.

(** The turns from batch number [a] on: what is upserted, on any world,
    are records that carry the ids of a run of rows starting at that
    batch. *)
Lemma batches_run (frame : list (Row.t * string)) (m : nat) :
  forall a : nat,
  exists (records : list Movie.t) (o : outcome unit) (made : list call)
         (j : nat),
    (forall w : World,
       for_each (map (fun k => 0 + k * embed_movies.BATCH_SIZE) (seq a m))
         (embed_movies.process_batch frame) w
       = (o, mkWorld (upsert_rows records (movies w)) (calls w ++ made)))
    /\ map (fun r => Some (Movie.id r)) records
       = firstn j
           (skipn (a * embed_movies.BATCH_SIZE)
              (map (fun b => Row.id (fst b)) frame)).
Proof.
  induction m as [|m IH]; intros a.
  - exists [], (Return tt), [], 0. split; [|reflexivity].
    intros w. simpl. unfold ret. now rewrite world_eta.
  - destruct (process_batch_run frame (0 + a * embed_movies.BATCH_SIZE))
      as (r0 & o0 & c0 & Hrun0 & Hcase).
    destruct Hcase as [[-> Hids0]|[[e ->] ->]].
    + destruct (IH (S a)) as (r1 & o1 & c1 & j1 & Hrun1 & Hids1).
      exists (r0 ++ r1), o1, (c0 ++ c1), (embed_movies.BATCH_SIZE + j1).
      split.
      * intros w. simpl. unfold bind at 1. rewrite Hrun0.
        rewrite Hrun1. simpl.
        now rewrite upsert_rows_app, app_assoc.
      * rewrite map_app, Hids0, Hids1, firstn_add. f_equal.
        rewrite skipn_skipn. reflexivity.
    + exists [], (Raise e), c0, 0. split; [|reflexivity].
      intros w. simpl. unfold bind at 1. now rewrite Hrun0.
Qed.

(** A run of [main] over a data frame, on any world: it upserts records
    of distinct ids, the same records whatever the table holds. *)
Lemma main_run (movies_df : list Row.t) :
  exists (records : list Movie.t) (o : outcome unit) (made : list call),
    (forall w : World,
       embed_movies.main movies_df w
       = (o, mkWorld (upsert_rows records (movies w)) (calls w ++ made)))
    /\ NoDup (map Movie.id records).
Proof.
  unfold embed_movies.main.
  destruct (embed_movies.apply_build_embedding_text
              (embed_movies.valid_movies movies_df)) as [frame|e] eqn:Hf.
  - unfold Py.range.
    destruct (batches_run frame
                ((length frame - 0 + embed_movies.BATCH_SIZE - 1)
                 / embed_movies.BATCH_SIZE) 0)
      as (records & o & made & j & Hrun & Hids).
    exists records, o, made. split.
    + intros w. unfold bind, lift. apply Hrun.
    + apply (NoDup_map_inv Some). rewrite map_map, Hids. simpl.
      rewrite <- (firstn_skipn j (map _ frame)).
      assert (Hnd : NoDup (map (fun b : Row.t * string => Row.id (fst b))
                             frame)).
      { rewrite <- (map_map fst Row.id).
        rewrite (apply_build_embedding_text_rows _ _ Hf).
        apply valid_movies_NoDup. }
      rewrite <- (firstn_skipn j) in Hnd.
      apply NoDup_app_remove_r in Hnd.
      now rewrite firstn_skipn.
  - exists [], (Raise e), []. split; [|constructor].
    intros w. unfold bind, lift. simpl. now rewrite world_eta.
Qed.

(** C9.  On a table that respects the primary key, a second run of the
    pipeline over the same data frame ends as the first did and leaves the
    table exactly as the first run left it; after either run no id has
    two rows. *)
Theorem ingestion_is_idempotent (movies_df : list Row.t) (w : World) :
  NoDup (map Movie.id (movies w)) ->
  let w1 := snd (embed_movies.main movies_df w) in
  let w2 := snd (embed_movies.main movies_df w1) in
  movies w2 = movies w1
  /\ fst (embed_movies.main movies_df w1) = fst (embed_movies.main movies_df w)
  /\ NoDup (map Movie.id (movies w1))
  /\ NoDup (map Movie.id (movies w2)).
Proof.
  intros Hnd w1 w2.
  destruct (main_run movies_df) as (records & o & made & Hrun & Hids).
  assert (E1 : movies w1 = upsert_rows records (movies w)).
  { unfold w1. now rewrite Hrun. }
  assert (E2 : movies w2 = upsert_rows records (movies w1)).
  { unfold w2. now rewrite Hrun. }
  assert (Hsame : movies w2 = movies w1).
  { rewrite E2, E1. now apply upsert_rows_idempotent. }
  split; [exact Hsame|]. split.
  - now rewrite !Hrun.
  - rewrite Hsame, E1. split; now apply upsert_rows_NoDup.
Qed.

(** *** Runs that complete *)

Lemma Forall2_In_left {A B : Type} (R : A -> B -> Prop)
    (l : list A) (l' : list B) :
  Forall2 R l l' -> forall a, In a l -> exists b, In b l' /\ R a b.
Proof.
  induction 1 as [|x y l l' Hxy _ IH]; intros a Ha; [contradiction|].
  destruct Ha as [<-|Ha].
  - exists y. split; [now left | assumption].
  - destruct (IH a Ha) as (b & Hb & Hab). exists b. split;
      [now right | assumption].
Qed.

Lemma apply_build_embedding_text_valid (rows : list Row.t) :
  (forall r, In r rows -> embed_movies.is_valid r = true) ->
  exists frame, embed_movies.apply_build_embedding_text rows = Return frame.
Proof.
  induction rows as [|r rows IH]; intros Hv; simpl; [eauto|].
  destruct (proj1 (is_valid_spec r) (Hv r (or_introl eq_refl)))
    as (i & t & o & _ & Ht & Ho & _).
  rewrite (build_embedding_text_joined r t o Ht Ho).
  destruct IH as [rest ->]; [|eauto].
  intros x Hx. apply Hv. now right.
Qed.

Lemma make_records_returns (batch : list (Row.t * string)) :
  forall (idx : nat) (embeddings : list vector),
    (forall b, In b batch -> Row.id (fst b) <> None) ->
    idx + length batch <= length embeddings ->
    exists records,
      embed_movies.make_records idx batch embeddings = Return records.
Proof.
  induction batch as [|[row text] batch IH]; intros idx es Hid Hlen; simpl;
    [eauto|].
  simpl in Hlen.
  destruct (nth_error es idx) as [e|] eqn:He.
  2:{ apply nth_error_None in He. lia. }
  unfold embed_movies.make_record.
  destruct (Row.id row) as [i|] eqn:Hi.
  2:{ exfalso. apply (Hid (row, text)); [now left | exact Hi]. }
  destruct (IH (S idx) es) as [records ->]; [| lia | eauto].
  intros b Hb. apply Hid. now right.
Qed.

(** Every record of a batch is made from a row of the batch and a vector
    of the provider's answer. *)
Lemma make_records_from (batch : list (Row.t * string)) :
  forall (idx : nat) (embeddings : list vector) (records : list Movie.t),
    embed_movies.make_records idx batch embeddings = Return records ->
    Forall
      (fun m =>
         exists b e,
           In b batch /\ In e embeddings
           /\ embed_movies.make_record (fst b) e = Return m)
      records.
Proof.
  induction batch as [|[row text] batch IH]; intros idx es records; simpl.
  - intros E. injection E as <-. constructor.
  - destruct (nth_error es idx) as [e|] eqn:He; [|discriminate].
    destruct (embed_movies.make_record row e) as [m|] eqn:Hm; [|discriminate].
    destruct (embed_movies.make_records (S idx) batch es) as [rs|] eqn:Hrs;
      [|discriminate].
    intros E. injection E as <-. constructor.
    + exists (row, text), e. split; [now left|]. split; [|exact Hm].
      now apply (nth_error_In es idx).
    + pose proof (IH _ _ _ Hrs) as Hall. revert Hall. apply Forall_impl.
      intros m' (b & e' & Hb & He' & Hm'). exists b, e'.
      split; [now right|]. now split.
Qed.

(** With a provider that answers every call with one vector for each
    text, and records that fit the columns of the table, the run over a
    data frame returns, and every row of [valid_movies] has its row in the
    table, with a vector. *)
Lemma ingestion_completes (movies_df : list Row.t) (w : World) :
  (forall texts, exists es,
      embeddings_create embed_movies.EMBEDDING_MODEL texts = Some es
      /\ length es = length texts) ->
  (forall r texts es e m,
      In r (embed_movies.valid_movies movies_df) ->
      embeddings_create embed_movies.EMBEDDING_MODEL texts = Some es ->
      In e es ->
      embed_movies.make_record r e = Return m ->
      fits_columns m = true) ->
  fst (embed_movies.main movies_df w) = Return tt
  /\ forall r, In r (embed_movies.valid_movies movies_df) ->
       exists m,
         In m (movies (snd (embed_movies.main movies_df w)))
         /\ Row.id r = Some (Movie.id m)
         /\ Movie.embedding m <> None.
Proof.
  intros Hprovider Hfit.
  destruct (apply_build_embedding_text_valid
              (embed_movies.valid_movies movies_df)) as [frame Hf].
  { intros r Hr. now apply valid_movies_valid in Hr. }
  assert (Hrows : map fst frame = embed_movies.valid_movies movies_df)
    by now apply apply_build_embedding_text_rows.
  assert (Hids : forall b, In b frame -> Row.id (fst b) <> None).
  { intros b Hb Hnone.
    assert (Hv : In (fst b) (embed_movies.valid_movies movies_df))
      by (rewrite <- Hrows; now apply in_map).
    apply valid_movies_valid in Hv. destruct Hv as [_ Hv].
    apply is_valid_spec in Hv. destruct Hv as (i & _ & _ & Hi & _).
    congruence. }
  (* every turn from batch [a] on upserts the whole batch *)
  assert (Hloop : forall m a,
    exists records made,
      (forall w0 : World,
         for_each (map (fun k => 0 + k * embed_movies.BATCH_SIZE) (seq a m))
           (embed_movies.process_batch frame) w0
         = (Return tt,
            mkWorld (upsert_rows records (movies w0)) (calls w0 ++ made)))
      /\ Forall2
           (fun (b : Row.t * string) (r : Movie.t) =>
              Row.id (fst b) = Some (Movie.id r)
              /\ Movie.embedding r <> None)
           (firstn (m * embed_movies.BATCH_SIZE)
              (skipn (a * embed_movies.BATCH_SIZE) frame))
           records).
  { induction m as [|m IH]; intros a.
    - exists [], []. split; [|constructor].
      intros w0. simpl. unfold ret. now rewrite world_eta.
    - destruct (IH (S a)) as (r1 & c1 & Hrun1 & Hall1).
      set (batch := firstn embed_movies.BATCH_SIZE
                      (skipn (a * embed_movies.BATCH_SIZE) frame)).
      destruct (Hprovider (map snd batch)) as (es & He & Hlen).
      assert (Hbatch : forall b, In b batch -> Row.id (fst b) <> None).
      { intros b Hb. apply Hids.
        unfold batch in Hb.
        rewrite <- (firstn_skipn (a * embed_movies.BATCH_SIZE) frame).
        apply in_or_app. right.
        rewrite <- (firstn_skipn embed_movies.BATCH_SIZE).
        apply in_or_app. now left. }
      assert (Hrec : exists r0,
                 embed_movies.make_records 0 batch es = Return r0
                 /\ Forall2
                      (fun (b : Row.t * string) (r : Movie.t) =>
                         Row.id (fst b) = Some (Movie.id r)
                         /\ Movie.embedding r <> None)
                      batch r0).
      { assert (Hgen : forall (l : list (Row.t * string)) idx r0,
                  embed_movies.make_records idx l es = Return r0 ->
                  Forall2
                    (fun (b : Row.t * string) (r : Movie.t) =>
                       Row.id (fst b) = Some (Movie.id r)
                       /\ Movie.embedding r <> None)
                    l r0).
        { induction l as [|[row text] l IHl]; intros idx r0; simpl.
          - intros E. injection E as <-. constructor.
          - destruct (nth_error es idx) as [e|]; [|discriminate].
            unfold embed_movies.make_record.
            destruct (Row.id row) as [i|] eqn:Hi; [|discriminate].
            destruct (embed_movies.make_records (S idx) l es) as [rs|] eqn:Hrs;
              [|discriminate].
            intros E. injection E as <-. constructor.
            + simpl. split; [assumption | discriminate].
            + now apply (IHl (S idx)). }
        destruct (make_records_returns batch 0 es Hbatch) as [r0 Hr0].
        { rewrite Hlen, length_map. simpl. lia. }
        exists r0. split; [exact Hr0|]. now apply (Hgen batch 0). }
      destruct Hrec as (r0 & Hr0 & Hall0).
      assert (Hfits : forallb fits_columns r0 = true).
      { apply forallb_forall. intros m0 Hm0.
        pose proof (make_records_from batch 0 es r0 Hr0) as Hfrom.
        rewrite Forall_forall in Hfrom.
        destruct (Hfrom m0 Hm0) as (b & e & Hb & He0 & Hmade).
        apply (Hfit (fst b) (map snd batch) es e m0); try assumption.
        rewrite <- Hrows. apply in_map. unfold batch in Hb.
        rewrite <- (firstn_skipn (a * embed_movies.BATCH_SIZE) frame).
        apply in_or_app. right.
        rewrite <- (firstn_skipn embed_movies.BATCH_SIZE).
        apply in_or_app. now left. }
      exists (r0 ++ r1),
        ([EmbeddingsCreate embed_movies.EMBEDDING_MODEL (map snd batch);
          Upsert (map Movie.id r0)] ++ c1).
      split.
      + intros w0. simpl. unfold bind at 1.
        unfold embed_movies.process_batch. rewrite slice_batch.
        fold batch.
        unfold embed_movies.get_embeddings, bind, openai_embeddings_create,
          lift, table_upsert.
        rewrite He, Hr0, Hfits. rewrite Hrun1. simpl.
        now rewrite upsert_rows_app, <- !app_assoc.
      + change (S m * embed_movies.BATCH_SIZE)
          with (embed_movies.BATCH_SIZE + m * embed_movies.BATCH_SIZE).
        rewrite firstn_add. apply Forall2_app; [exact Hall0|].
        rewrite skipn_skipn. exact Hall1. }
  destruct (Hloop ((length frame - 0 + embed_movies.BATCH_SIZE - 1)
                   / embed_movies.BATCH_SIZE) 0)
    as (records & made & Hrun & Hall).
  assert (Hmain : embed_movies.main movies_df w
                  = (Return tt,
                     mkWorld (upsert_rows records (movies w))
                       (calls w ++ made))).
  { unfold embed_movies.main. rewrite Hf.
    unfold bind, lift, Py.range. apply Hrun. }
  rewrite Hmain. cbn [fst snd movies]. split; [reflexivity|].
  change (skipn (0 * embed_movies.BATCH_SIZE) frame) with frame in Hall.
  rewrite firstn_all2 in Hall.
  2:{ unfold embed_movies.BATCH_SIZE.
      pose proof (Nat.div_mod_eq (length frame - 0 + 100 - 1) 100).
      pose proof (Nat.mod_upper_bound (length frame - 0 + 100 - 1) 100).
      lia. }
  intros r Hr. rewrite <- Hrows in Hr. apply in_map_iff in Hr.
  destruct Hr as [b [<- Hb]].
  destruct (Forall2_In_left _ _ _ Hall b Hb) as (m & Hm & Hid & Hemb).
  assert (Hnd : NoDup (map Movie.id records)).
  { apply (NoDup_map_inv Some). rewrite map_map.
    assert (E : map (fun r => Some (Movie.id r)) records
                = map (fun b : Row.t * string => Row.id (fst b)) frame).
    { clear - Hall. induction Hall as [|x y l l' [Hxy _] _ IH]; simpl;
        [reflexivity|]. now rewrite Hxy, IH. }
    rewrite E, <- (map_map fst Row.id), Hrows.
    apply valid_movies_NoDup. }
  exists m. split; [|split; assumption].
  now apply upsert_rows_hold.
Qed.

End Batches.

(** * Further properties *)

(** ** The valid movies *)

Section ValidMovies.
Context {C : Collaborators}.

Lemma filter_split {A : Type} (f : A -> bool) (l : list A) :
  forall (l1' l2' : list A) (x : A),
    filter f l = l1' ++ x :: l2' ->
    exists l1 l2,
      l = l1 ++ x :: l2 /\ filter f l1 = l1' /\ filter f l2 = l2'.
Proof.
  induction l as [|y l IH]; intros l1' l2' x E; simpl in E.
  - destruct l1'; discriminate.
  - destruct (f y) eqn:Hy.
    + destruct l1' as [|z l1']; simpl in E.
      * injection E as <- <-. exists [], l. simpl. auto.
      * injection E as <- E. destruct (IH _ _ _ E) as (l1 & l2 & -> & H1 & H2).
        exists (y :: l1), l2. simpl. rewrite Hy, H1. auto.
    + destruct (IH _ _ _ E) as (l1 & l2 & -> & H1 & H2).
      exists (y :: l1), l2. simpl. rewrite Hy. auto.
Qed.

(** Which rows the de-duplication keeps: those with no row of their id
    before them, seen or in the frame. *)
Lemma drop_duplicates_seen_first (rows : list Row.t) :
  forall (seen : list (option Z)) (r : Row.t),
    In r (embed_movies.drop_duplicates_seen seen rows) <->
    exists l1 l2,
      rows = l1 ++ r :: l2 /\ ~ In (Row.id r) seen
      /\ forall x, In x l1 -> Row.id x <> Row.id r.
Proof.
  induction rows as [|y rows IH]; intros seen r; simpl.
  - split; [contradiction|]. intros (l1 & l2 & E & _).
    destruct l1; discriminate.
  - destruct (existsb (embed_movies.same_id (Row.id y)) seen) eqn:Hs.
    + apply seen_In in Hs. rewrite IH. split.
      * intros (l1 & l2 & -> & Hn & Hl1). exists (y :: l1), l2.
        repeat split; [assumption|]. intros x [<-|Hx]; [|now apply Hl1].
        intros E. apply Hn. now rewrite <- E.
      * intros (l1 & l2 & E & Hn & Hl1). destruct l1 as [|z l1]; simpl in E.
        -- injection E as -> ->. contradiction.
        -- injection E as -> ->. exists l1, l2. repeat split; [assumption|].
           intros x Hx. apply Hl1. now right.
    + assert (Hy : ~ In (Row.id y) seen).
      { intros Hin. apply seen_In in Hin. congruence. }
      simpl. rewrite IH. split.
      * intros [->|(l1 & l2 & -> & Hn & Hl1)].
        -- exists [], rows. repeat split; [assumption | contradiction].
        -- exists (y :: l1), l2. repeat split.
           ++ intros Hin. apply Hn. now right.
           ++ intros x [<-|Hx]; [|now apply Hl1].
              intros E. apply Hn. left. exact E.
      * intros (l1 & l2 & E & Hn & Hl1). destruct l1 as [|z l1]; simpl in E.
        -- injection E as -> ->. now left.
        -- injection E as -> ->. right. exists l1, l2. repeat split.
           ++ intros [E|Hin]; [|contradiction].
              apply (Hl1 z); [now left | exact E].
           ++ intros x Hx. apply Hl1. now right.
Qed.

(** X1.  A row is in [valid_movies] exactly when it stands in the frame,
    passes the mask, and no row before it that passes the mask has its
    id: of the valid rows of an id the first is kept. *)
Theorem valid_movies_keeps_first (movies_df : list Row.t) (r : Row.t) :
  In r (embed_movies.valid_movies movies_df) <->
  exists l1 l2,
    movies_df = l1 ++ r :: l2
    /\ embed_movies.is_valid r = true
    /\ forall x, In x l1 -> embed_movies.is_valid x = true ->
                 Row.id x <> Row.id r.
Proof.
  unfold embed_movies.valid_movies, embed_movies.drop_duplicates.
  rewrite drop_duplicates_seen_first. split.
  - intros (l1' & l2' & E & _ & Hfirst).
    destruct (filter_split _ _ _ _ _ E) as (l1 & l2 & -> & H1 & H2).
    exists l1, l2. split; [reflexivity|]. split.
    + assert (Hin : In r (filter embed_movies.is_valid (l1 ++ r :: l2))).
      { rewrite E. apply in_or_app. right. now left. }
      now apply filter_In in Hin.
    + intros x Hx Hv. apply Hfirst. rewrite <- H1. now apply filter_In.
  - intros (l1 & l2 & -> & Hv & Hfirst).
    exists (filter embed_movies.is_valid l1),
      (filter embed_movies.is_valid l2).
    rewrite filter_app. simpl. rewrite Hv. repeat split; [tauto|].
    intros x Hx. apply filter_In in Hx. now apply Hfirst.
Qed.

Lemma drop_duplicates_seen_distinct (rows : list Row.t) :
  forall seen : list (option Z),
    NoDup (map Row.id rows) ->
    (forall r, In r rows -> ~ In (Row.id r) seen) ->
    embed_movies.drop_duplicates_seen seen rows = rows.
Proof.
  induction rows as [|y rows IH]; intros seen Hnd Hfresh; simpl;
    [reflexivity|].
  simpl in Hnd. apply NoDup_cons_iff in Hnd. destruct Hnd as [Hy Hnd].
  destruct (existsb (embed_movies.same_id (Row.id y)) seen) eqn:Hs.
  - apply seen_In in Hs. exfalso. apply (Hfresh y); [now left | exact Hs].
  - f_equal. apply IH; [assumption|].
    intros r Hr [E|Hin].
    + apply Hy. rewrite E. now apply in_map.
    + apply (Hfresh r); [now right | exact Hin].
Qed.

(** X2.  [valid_movies] is a fixed point of the filter and the
    de-duplication: filtering and de-duplicating it again changes
    nothing, and no two of its rows share an id. *)
Theorem valid_movies_idempotent (movies_df : list Row.t) :
  embed_movies.valid_movies (embed_movies.valid_movies movies_df)
  = embed_movies.valid_movies movies_df
  /\ NoDup (map Row.id (embed_movies.valid_movies movies_df)).
Proof.
  split; [|apply valid_movies_NoDup].
  unfold embed_movies.valid_movies at 1.
  assert (Hf : filter embed_movies.is_valid
                 (embed_movies.valid_movies movies_df)
               = embed_movies.valid_movies movies_df).
  { apply forallb_filter_id. apply forallb_forall.
    intros r Hr. now apply valid_movies_valid in Hr. }
  rewrite Hf. unfold embed_movies.drop_duplicates.
  apply drop_duplicates_seen_distinct; [apply valid_movies_NoDup | auto].
Qed.

End ValidMovies.

(** ** The keyword merge *)

Section MergeProperties.
Context {C : Collaborators}.

Lemma find_filter_head {A : Type} (p : A -> bool) (l : list A) :
  find p l = hd_error (filter p l).
Proof.
  induction l as [|x l IH]; simpl; [reflexivity|].
  now destruct (p x).
Qed.

(** The rows one row of [movies_df] gives: at least one, the first with
    the keywords of the first keyword row of its id, all with its id and
    its validity. *)
Lemma merge_keywords_row
    (row : Row.t) (keywords_df : list (option Z * list string)) :
  exists ys,
    merge_keywords [row] keywords_df
    = with_keyword_names row
        (match
           find (fun k => embed_movies.same_id (fst k) (Row.id row))
             keywords_df
         with
         | Some k => snd k
         | None => []
         end) :: ys
    /\ Forall
         (fun y =>
            Row.id y = Row.id row
            /\ embed_movies.is_valid y = embed_movies.is_valid row)
         (merge_keywords [row] keywords_df).
Proof.
  unfold merge_keywords. simpl. rewrite app_nil_r, find_filter_head.
  destruct (filter _ keywords_df) as [|k found]; simpl.
  - exists []. split; [reflexivity|]. repeat constructor.
  - exists (map (fun k => with_keyword_names row (snd k)) found).
    split; [reflexivity|]. constructor; [split; reflexivity|].
    apply Forall_forall. intros y Hy. apply in_map_iff in Hy.
    destruct Hy as [k' [<- _]]. split; reflexivity.
Qed.

Lemma merge_keywords_cons
    (row : Row.t) (rows : list Row.t)
    (keywords_df : list (option Z * list string)) :
  merge_keywords (row :: rows) keywords_df
  = merge_keywords [row] keywords_df ++ merge_keywords rows keywords_df.
Proof. unfold merge_keywords. simpl. now rewrite app_nil_r. Qed.

Lemma filter_all {A : Type} (f : A -> bool) (l : list A) (b : bool) :
  Forall (fun x => f x = b) l -> filter f l = if b then l else [].
Proof.
  induction 1 as [|x l Hx _ IH]; simpl; [now destruct b|].
  rewrite Hx, IH. now destruct b.
Qed.

(** The mask commutes with the merge: it does not look at keywords. *)
Lemma filter_merge_keywords
    (movies_df : list Row.t) (keywords_df : list (option Z * list string)) :
  filter embed_movies.is_valid (merge_keywords movies_df keywords_df)
  = merge_keywords (filter embed_movies.is_valid movies_df) keywords_df.
Proof.
  induction movies_df as [|row rows IH]; [reflexivity|].
  rewrite merge_keywords_cons, filter_app, IH.
  destruct (merge_keywords_row row keywords_df) as (ys & _ & Hall).
  rewrite (filter_all _ _ (embed_movies.is_valid row)).
  2:{ revert Hall. apply Forall_impl. tauto. }
  simpl. destruct (embed_movies.is_valid row); [|reflexivity].
  now rewrite (merge_keywords_cons row).
Qed.

Lemma drop_duplicates_seen_skip (ys rest : list Row.t) :
  forall seen : list (option Z),
    Forall (fun y => In (Row.id y) seen) ys ->
    embed_movies.drop_duplicates_seen seen (ys ++ rest)
    = embed_movies.drop_duplicates_seen seen rest.
Proof.
  induction ys as [|y ys IH]; intros seen Hall; simpl; [reflexivity|].
  apply Forall_cons_iff in Hall. destruct Hall as [Hy Hall].
  apply seen_In in Hy. rewrite Hy. now apply IH.
Qed.

Lemma drop_duplicates_merge_keywords
    (rows : list Row.t) (keywords_df : list (option Z * list string)) :
  forall seen : list (option Z),
    embed_movies.drop_duplicates_seen seen (merge_keywords rows keywords_df)
    = map (fun row =>
             with_keyword_names row
               (match
                  find (fun k => embed_movies.same_id (fst k) (Row.id row))
                    keywords_df
                with
                | Some k => snd k
                | None => []
                end))
        (embed_movies.drop_duplicates_seen seen rows).
Proof.
  induction rows as [|row rows IH]; intros seen; [reflexivity|].
  rewrite merge_keywords_cons.
  destruct (merge_keywords_row row keywords_df) as (ys & E & Hall).
  simpl embed_movies.drop_duplicates_seen at 2.
  destruct (existsb (embed_movies.same_id (Row.id row)) seen) eqn:Hs.
  - rewrite drop_duplicates_seen_skip; [apply IH|].
    revert Hall. apply Forall_impl. intros y [-> _]. now apply seen_In.
  - rewrite E in Hall |- *. simpl. change (Row.id (with_keyword_names row _))
      with (Row.id row). rewrite Hs. simpl. f_equal.
    apply Forall_cons_iff in Hall. destruct Hall as [_ Hall].
    rewrite drop_duplicates_seen_skip; [apply IH|].
    revert Hall. apply Forall_impl. intros y [-> _]. now left.
Qed.

(** X3.  After the merge, the filter and the de-duplication, the valid
    movies are those of [movies_df] alone, in the same order, each with
    the keyword names of the first row of [keywords_df] of its id, or
    with none: rows of [keywords_df] that repeat an id add no movie. *)
Theorem valid_movies_after_merge
    (movies_df : list Row.t) (keywords_df : list (option Z * list string)) :
  embed_movies.valid_movies (merge_keywords movies_df keywords_df)
  = map (fun row =>
           with_keyword_names row
             (match
                find (fun k => embed_movies.same_id (fst k) (Row.id row))
                  keywords_df
              with
              | Some k => snd k
              | None => []
              end))
      (embed_movies.valid_movies movies_df).
Proof.
  unfold embed_movies.valid_movies, embed_movies.drop_duplicates.
  rewrite filter_merge_keywords. apply drop_duplicates_merge_keywords.
Qed.

(** X4.  The merge is a left join: its rows are the rows of [movies_df],
    each with the keyword names of a row of [keywords_df] of the same id,
    or with no keyword name when [keywords_df] has no row of that id. *)
Theorem merge_keywords_left_join
    (movies_df : list Row.t) (keywords_df : list (option Z * list string))
    (r : Row.t) :
  In r (merge_keywords movies_df keywords_df) <->
  exists row,
    In row movies_df
    /\ ((exists k,
           In k keywords_df /\ fst k = Row.id row
           /\ r = with_keyword_names row (snd k))
        \/ ((forall k, In k keywords_df -> fst k <> Row.id row)
            /\ r = with_keyword_names row [])).
Proof.
  unfold merge_keywords. rewrite in_flat_map. split.
  - intros (row & Hrow & Hr). exists row. split; [assumption|].
    destruct (filter _ keywords_df) as [|k found] eqn:Hf.
    + right. destruct Hr as [<-|[]]. split; [|reflexivity].
      intros k Hk E.
      assert (Hin : In k (filter
                (fun k => embed_movies.same_id (fst k) (Row.id row))
                keywords_df)).
      { apply filter_In. split; [assumption|]. now apply same_id_eq. }
      rewrite Hf in Hin. contradiction.
    + left. apply in_map_iff in Hr. destruct Hr as (k' & <- & Hk').
      rewrite <- Hf in Hk'. apply filter_In in Hk'.
      destruct Hk' as [Hin Hid]. apply same_id_eq in Hid. eauto.
  - intros (row & Hrow & Hcase). exists row. split; [assumption|].
    destruct Hcase as [(k & Hk & Hid & ->)|(Hnone & ->)].
    + assert (Hin : In k (filter
                (fun k => embed_movies.same_id (fst k) (Row.id row))
                keywords_df)).
      { apply filter_In. split; [assumption|]. now apply same_id_eq. }
      destruct (filter _ keywords_df) as [|k0 found]; [contradiction|].
      apply in_map_iff. eauto.
    + destruct (filter _ keywords_df) as [|k0 found] eqn:Hf; [now left|].
      assert (Hin : In k0 (filter
                (fun k => embed_movies.same_id (fst k) (Row.id row))
                keywords_df)).
      { rewrite Hf. now left. }
      apply filter_In in Hin. destruct Hin as [Hin Hid].
      apply same_id_eq in Hid. exfalso. now apply (Hnone k0).
Qed.

End MergeProperties.

(** ** Batches *)

Section BatchProperties.

Lemma slices_concat {A : Type} (size : nat) (l : list A) (m : nat) :
  forall a : nat,
    concat (map (fun k => firstn size (skipn (k * size) l)) (seq a m))
    = firstn (m * size) (skipn (a * size) l).
Proof.
  induction m as [|m IH]; intros a; simpl; [reflexivity|].
  rewrite IH, firstn_add. f_equal. now rewrite skipn_skipn.
Qed.

Lemma range_bounds (total size : nat) :
  0 < size ->
  total <= (total - 0 + size - 1) / size * size
  /\ forall k, k < (total - 0 + size - 1) / size -> k * size < total.
Proof.
  intros Hsize.
  pose proof (Nat.div_mod_eq (total - 0 + size - 1) size) as Hdm.
  assert (Hmod : (total - 0 + size - 1) mod size < size)
    by (apply Nat.mod_upper_bound; lia).
  split; [nia|]. intros k Hk. nia.
Qed.

(** X5.  The slices the batch loop cuts, [start] running over
    [range(0, total, size)], are the frame cut into consecutive pieces:
    put end to end they are the frame, and each has at least one row and
    at most [size]. *)
Theorem batches_partition {A : Type} (size : nat) (frame : list A) :
  0 < size ->
  let batches :=
    map (fun start =>
           Py.slice start (Nat.min (start + size) (length frame)) frame)
      (Py.range 0 (length frame) size) in
  concat batches = frame
  /\ Forall (fun batch => 1 <= length batch <= size) batches.
Proof.
  intros Hsize batches. unfold batches, Py.range.
  destruct (range_bounds (length frame) size Hsize) as [Hcover Hstart].
  rewrite map_map. split.
  - erewrite map_ext.
    2:{ intros k. rewrite slice_batch. reflexivity. }
    change (fun k => firstn size (skipn (0 + k * size) frame))
      with (fun k => firstn size (skipn (k * size) frame)).
    rewrite slices_concat. simpl skipn. now apply firstn_all2.
  - apply Forall_forall. intros batch Hb. apply in_map_iff in Hb.
    destruct Hb as (k & <- & Hk). apply in_seq in Hk.
    rewrite slice_batch, length_firstn, length_skipn.
    specialize (Hstart k). simpl. lia.
Qed.

End BatchProperties.

(** ** What an ingestion run writes *)

Section IngestionProperties.
Context {C : Collaborators}.

Lemma make_record_row (row : Row.t) (e : vector) (m : Movie.t) :
  embed_movies.make_record row e = Return m ->
  Row.id row = Some (Movie.id m)
  /\ Movie.overview m = Row.overview row
  /\ Movie.release_date m
     = option_map (Py.prefix 10) (Row.release_date row)
  /\ Movie.poster_path m = Row.poster_path row
  /\ Movie.genres m = Some (Row.genre_names row)
  /\ Movie.keywords m = Some (firstn 20 (Row.keyword_names row))
  /\ Movie.embedding m = Some e
  /\ forall t, Row.title row = Some t -> Movie.title m = t.
Proof.
  unfold embed_movies.make_record.
  destruct (Row.id row) as [i|]; [|discriminate].
  intros E. injection E as <-. simpl. repeat split.
  now intros t ->.
Qed.

Lemma make_records_made (batch : list (Row.t * string)) :
  forall (idx : nat) (embeddings : list vector) (records : list Movie.t),
    embed_movies.make_records idx batch embeddings = Return records ->
    length records = length batch
    /\ Forall
         (fun m =>
            exists b e,
              In b batch /\ embed_movies.make_record (fst b) e = Return m)
         records.
Proof.
  induction batch as [|[row text] batch IH]; intros idx es records; simpl.
  - intros E. injection E as <-. split; [reflexivity | constructor].
  - destruct (nth_error es idx) as [e|]; [|discriminate].
    destruct (embed_movies.make_record row e) as [m|] eqn:Hm; [|discriminate].
    destruct (embed_movies.make_records (S idx) batch es) as [rs|] eqn:Hrs;
      [|discriminate].
    intros E. injection E as <-. destruct (IH _ _ _ Hrs) as [Hlen Hall].
    split; [simpl; now rewrite Hlen|]. constructor.
    + exists (row, text), e. split; [now left | exact Hm].
    + revert Hall. apply Forall_impl.
      intros m' (b & e' & Hb & Hm'). exists b, e'. split; [now right|exact Hm'].
Qed.

(** The turns of the loop over whole batches of the frame: what they
    upsert are records of rows of the frame that fit the columns, with
    vectors of the provider, and what they ask of the services are batch
    calls. *)
Lemma batches_made (frame : list (Row.t * string)) (m : nat) :
  forall a : nat,
    (forall k, a <= k < a + m ->
               k * embed_movies.BATCH_SIZE < length frame) ->
    exists (records : list Movie.t) (o : outcome unit) (made : list call),
      (forall w : World,
         for_each (map (fun k => 0 + k * embed_movies.BATCH_SIZE) (seq a m))
           (embed_movies.process_batch frame) w
         = (o, mkWorld (upsert_rows records (movies w)) (calls w ++ made)))
      /\ Forall
           (fun r =>
              exists b e,
                In b frame /\ embed_movies.make_record (fst b) e = Return r)
           records
      /\ Forall batch_call made
      /\ Forall stored_record records.
Proof.
  induction m as [|m IH]; intros a Hstarts.
  - exists [], (Return tt), []. split; [|repeat split; constructor].
    intros w. simpl. unfold ret. now rewrite world_eta.
  - set (batch := firstn embed_movies.BATCH_SIZE
                    (skipn (a * embed_movies.BATCH_SIZE) frame)).
    assert (Hlen : 1 <= length batch <= embed_movies.BATCH_SIZE).
    { unfold batch. rewrite length_firstn, length_skipn.
      specialize (Hstarts a). unfold embed_movies.BATCH_SIZE in *. lia. }
    assert (Hsub : forall b, In b batch -> In b frame).
    { intros b Hb. unfold batch in Hb.
      rewrite <- (firstn_skipn (a * embed_movies.BATCH_SIZE) frame).
      apply in_or_app. right.
      rewrite <- (firstn_skipn embed_movies.BATCH_SIZE).
      apply in_or_app. now left. }
    assert (Hturn : forall w : World,
      embed_movies.process_batch frame (0 + a * embed_movies.BATCH_SIZE) w
      = match embeddings_create embed_movies.EMBEDDING_MODEL (map snd batch)
        with
        | None =>
            (Raise OpenAIError,
             mkWorld (movies w)
               (calls w ++ [EmbeddingsCreate embed_movies.EMBEDDING_MODEL
                              (map snd batch)]))
        | Some es =>
            match embed_movies.make_records 0 batch es with
            | Raise e =>
                (Raise e,
                 mkWorld (movies w)
                   (calls w ++ [EmbeddingsCreate embed_movies.EMBEDDING_MODEL
                                  (map snd batch)]))
            | Return records =>
                if forallb fits_columns records
                then
                  (Return tt,
                   mkWorld (upsert_rows records (movies w))
                     (calls w
                      ++ [EmbeddingsCreate embed_movies.EMBEDDING_MODEL
                            (map snd batch);
                          Upsert (map Movie.id records)]))
                else
                  (Raise APIError,
                   mkWorld (movies w)
                     (calls w
                      ++ [EmbeddingsCreate embed_movies.EMBEDDING_MODEL
                            (map snd batch);
                          Upsert (map Movie.id records)]))
            end
        end).
    { intros w. unfold embed_movies.process_batch. rewrite slice_batch.
      change (0 + a * embed_movies.BATCH_SIZE)
        with (a * embed_movies.BATCH_SIZE).
      fold batch.
      unfold embed_movies.get_embeddings, bind, openai_embeddings_create,
        lift, table_upsert.
      destruct (embeddings_create _ (map snd batch)) as [es|];
        [|reflexivity].
      destruct (embed_movies.make_records 0 batch es) as [rs|];
        [|reflexivity].
      simpl. destruct (forallb fits_columns rs); now rewrite <- app_assoc. }
    assert (Hemb : batch_call
                     (EmbeddingsCreate embed_movies.EMBEDDING_MODEL
                        (map snd batch))).
    { simpl. rewrite length_map. split; [reflexivity | exact Hlen]. }
    destruct (embeddings_create embed_movies.EMBEDDING_MODEL (map snd batch))
      as [es|] eqn:He.
    + destruct (embed_movies.make_records 0 batch es) as [r0|e] eqn:Hr0.
      * destruct (make_records_made batch 0 es r0 Hr0) as [Hl0 Hall0].
        assert (Hups : batch_call (Upsert (map Movie.id r0))).
        { simpl. rewrite length_map, Hl0. exact Hlen. }
        destruct (forallb fits_columns r0) eqn:Hfit.
        -- destruct (IH (S a)) as (r1 & o1 & c1 & Hrun1 & Hall1 & Hc1 & Hs1).
           { intros k Hk. apply Hstarts. lia. }
           exists (r0 ++ r1), o1,
             ([EmbeddingsCreate embed_movies.EMBEDDING_MODEL (map snd batch);
               Upsert (map Movie.id r0)] ++ c1).
           split; [|split; [|split]].
           ++ intros w. simpl. unfold bind at 1. rewrite Hturn, Hrun1. simpl.
              now rewrite upsert_rows_app, <- !app_assoc.
           ++ apply Forall_app. split; [|exact Hall1].
              revert Hall0. apply Forall_impl.
              intros m' (b & e' & Hb & Hm'). exists b, e'. auto.
           ++ apply Forall_app. split; [|exact Hc1].
              constructor; [exact Hemb|]. constructor; [exact Hups|].
              constructor.
           ++ apply Forall_app. split; [|exact Hs1].
              apply Forall_forall. intros m' Hm'. split.
              ** rewrite forallb_forall in Hfit. now apply Hfit.
              ** pose proof (make_records_from batch 0 es r0 Hr0) as Hfrom.
                 rewrite Forall_forall in Hfrom.
                 destruct (Hfrom m' Hm') as (b & e' & _ & He' & Hmade).
                 exists (map snd batch), es, e'. repeat split; try assumption.
                 now apply make_record_row in Hmade.
        -- exists [], (Raise APIError),
             [EmbeddingsCreate embed_movies.EMBEDDING_MODEL (map snd batch);
              Upsert (map Movie.id r0)].
           split; [|repeat split; try constructor; try assumption;
                     constructor; [assumption | constructor]].
           intros w. simpl. unfold bind at 1. now rewrite Hturn.
      * exists [], (Raise e),
          [EmbeddingsCreate embed_movies.EMBEDDING_MODEL (map snd batch)].
        split;
          [|repeat split; try constructor; [exact Hemb | constructor]].
        intros w. simpl. unfold bind at 1. now rewrite Hturn.
    + exists [], (Raise OpenAIError),
        [EmbeddingsCreate embed_movies.EMBEDDING_MODEL (map snd batch)].
      split;
          [|repeat split; try constructor; [exact Hemb | constructor]].
      intros w. simpl. unfold bind at 1. now rewrite Hturn.
Qed.

(** A run of [main], on any world: the records it upserts are made from
    rows of [valid_movies], fit the columns and carry vectors of the
    provider, and its calls are batch calls. *)
Lemma main_made (movies_df : list Row.t) :
  exists (records : list Movie.t) (o : outcome unit) (made : list call),
    (forall w : World,
       embed_movies.main movies_df w
       = (o, mkWorld (upsert_rows records (movies w)) (calls w ++ made)))
    /\ Forall
         (fun m =>
            exists r e,
              In r (embed_movies.valid_movies movies_df)
              /\ embed_movies.make_record r e = Return m)
         records
    /\ Forall batch_call made
    /\ Forall stored_record records.
Proof.
  unfold embed_movies.main.
  destruct (embed_movies.apply_build_embedding_text
              (embed_movies.valid_movies movies_df)) as [frame|e] eqn:Hf.
  - unfold Py.range.
    destruct (batches_made frame
                ((length frame - 0 + embed_movies.BATCH_SIZE - 1)
                 / embed_movies.BATCH_SIZE) 0)
      as (records & o & made & Hrun & Hall & Hcalls).
    { intros k Hk.
      apply (range_bounds (length frame) embed_movies.BATCH_SIZE).
      - unfold embed_movies.BATCH_SIZE. lia.
      - lia. }
    exists records, o, made. split; [|split; [|exact Hcalls]].
    + intros w. unfold bind, lift. apply Hrun.
    + revert Hall. apply Forall_impl. intros m (b & e & Hb & Hm).
      exists (fst b), e. split; [|exact Hm].
      rewrite <- (apply_build_embedding_text_rows _ _ Hf).
      now apply in_map.
  - exists [], (Raise e), []. split; [|repeat split; constructor].
    intros w. unfold bind, lift. simpl. now rewrite world_eta.
Qed.

Lemma upsert_row_from (q : Movie.t) (table : list Movie.t) (m : Movie.t) :
  In m (upsert_row q table) -> In m table \/ m = q.
Proof.
  unfold upsert_row. destruct (existsb _ table).
  - intros Hm. apply in_map_iff in Hm. destruct Hm as (x & E & Hx).
    destruct (Z.eqb (Movie.id x) (Movie.id q)); subst; auto.
  - intros Hm. apply in_app_or in Hm. destruct Hm as [Hm|[<-|[]]]; auto.
Qed.

Lemma upsert_rows_from (records : list Movie.t) :
  forall (table : list Movie.t) (m : Movie.t),
    In m (upsert_rows records table) -> In m table \/ In m records.
Proof.
  unfold upsert_rows.
  induction records as [|q records IH]; intros table m; simpl; [auto|].
  intros Hm. destruct (IH _ _ Hm) as [Hm'|Hm']; [|auto].
  apply upsert_row_from in Hm'. destruct Hm' as [Hm'| ->]; auto.
Qed.

Lemma upsert_row_other (q : Movie.t) (table : list Movie.t) (m : Movie.t) :
  In m table -> Movie.id m <> Movie.id q -> In m (upsert_row q table).
Proof.
  intros Hm Hne. unfold upsert_row. destruct (existsb _ table).
  - apply in_map_iff. exists m. split; [|assumption].
    destruct (Z.eqb_spec (Movie.id m) (Movie.id q)); congruence.
  - apply in_or_app. now left.
Qed.

Lemma upsert_rows_other (records : list Movie.t) :
  forall (table : list Movie.t) (m : Movie.t),
    In m table -> ~ In (Movie.id m) (map Movie.id records) ->
    In m (upsert_rows records table).
Proof.
  unfold upsert_rows.
  induction records as [|q records IH]; intros table m Hm Hnot; simpl;
    [assumption|].
  apply IH.
  - apply upsert_row_other; [assumption|].
    intros E. apply Hnot. left. now symmetry.
  - intros Hin. apply Hnot. now right.
Qed.

Lemma upsert_rows_ids (records : list Movie.t) :
  forall (table : list Movie.t) (i : Z),
    In i (map Movie.id table) ->
    In i (map Movie.id (upsert_rows records table)).
Proof.
  unfold upsert_rows.
  induction records as [|q records IH]; intros table i Hi; simpl;
    [assumption|].
  apply IH. rewrite upsert_row_ids. destruct (existsb _ table);
    [assumption|]. apply in_or_app. now left.
Qed.

Lemma upsert_rows_length (records : list Movie.t) :
  forall table : list Movie.t,
    length table <= length (upsert_rows records table).
Proof.
  unfold upsert_rows.
  induction records as [|q records IH]; intros table; simpl; [lia|].
  etransitivity; [|apply IH].
  unfold upsert_row. destruct (existsb _ table).
  - now rewrite length_map.
  - rewrite length_app. simpl. lia.
Qed.

Lemma fits_columns_dimension (m : Movie.t) (e : vector) :
  fits_columns m = true -> Movie.embedding m = Some e ->
  dimensions e = vector_dimensions.
Proof.
  unfold fits_columns. intros Hfit He. rewrite He in Hfit.
  apply andb_true_iff in Hfit. destruct Hfit as [_ Hdim].
  now apply Nat.eqb_eq.
Qed.

(** A run of [main] on a table whose vectors have the dimension of the
    column leaves such a table, whether it returns or raises. *)
Lemma ingestion_keeps_dimension (movies_df : list Row.t) (w : World) :
  (forall m e,
     In m (movies w) -> Movie.embedding m = Some e ->
     dimensions e = vector_dimensions) ->
  forall m e,
    In m (movies (snd (embed_movies.main movies_df w))) ->
    Movie.embedding m = Some e ->
    dimensions e = vector_dimensions.
Proof.
  intros Htable m e.
  destruct (main_made movies_df)
    as (records & o & made & Hrun & _ & _ & Hstored).
  rewrite Hrun. simpl. intros Hm He. apply upsert_rows_from in Hm.
  destruct Hm as [Hm|Hm]; [now apply (Htable m)|].
  rewrite Forall_forall in Hstored. destruct (Hstored m Hm) as [Hfit _].
  now apply (fits_columns_dimension m).
Qed.

(** X6.  A run of [main] takes nothing away: every id of the table is
    still an id of the table, the table is no shorter, and a row whose id
    is the id of no valid movie stands as it stood, whether the run
    returns or raises. *)
Theorem ingestion_keeps_other_rows (movies_df : list Row.t) (w : World) :
  let w' := snd (embed_movies.main movies_df w) in
  (forall i, In i (map Movie.id (movies w)) -> In i (map Movie.id (movies w')))
  /\ length (movies w) <= length (movies w')
  /\ forall m,
       In m (movies w) ->
       ~ In (Some (Movie.id m))
           (map Row.id (embed_movies.valid_movies movies_df)) ->
       In m (movies w').
Proof.
  intros w'. destruct (main_made movies_df)
    as (records & o & made & Hrun & Hall & _).
  assert (E : movies w' = upsert_rows records (movies w)).
  { unfold w'. now rewrite Hrun. }
  rewrite E. split; [|split].
  - intros i. apply upsert_rows_ids.
  - apply upsert_rows_length.
  - intros m Hm Hnot. apply upsert_rows_other; [assumption|].
    intros Hin. apply Hnot. apply in_map_iff in Hin.
    destruct Hin as (q & Hid & Hq). rewrite Forall_forall in Hall.
    destruct (Hall q Hq) as (r & e & Hr & Hrec).
    apply make_record_row in Hrec. destruct Hrec as (Hrid & _).
    apply in_map_iff. exists r. split; [congruence | assumption].
Qed.

(** X7.  Every row of the table after a run of [main] either stood in
    the table before or was made from a valid movie: it has that movie's
    id, title, overview and genre names, the first 20 of its keyword
    names, at most the first 10 characters of its release date, and a
    vector. *)
Theorem ingestion_writes_whole_rows
    (movies_df : list Row.t) (w : World) (m : Movie.t) :
  In m (movies (snd (embed_movies.main movies_df w))) ->
  In m (movies w)
  \/ exists r,
       In r (embed_movies.valid_movies movies_df)
       /\ Row.id r = Some (Movie.id m)
       /\ Row.title r = Some (Movie.title m)
       /\ Movie.overview m = Row.overview r
       /\ Movie.genres m = Some (Row.genre_names r)
       /\ Movie.keywords m = Some (firstn 20 (Row.keyword_names r))
       /\ Movie.release_date m
          = option_map (Py.prefix 10) (Row.release_date r)
       /\ Movie.embedding m <> None.
Proof.
  destruct (main_made movies_df) as (records & o & made & Hrun & Hall & _).
  rewrite Hrun. simpl. intros Hm. apply upsert_rows_from in Hm.
  destruct Hm as [Hm|Hm]; [now left|]. right.
  rewrite Forall_forall in Hall.
  destruct (Hall m Hm) as (r & e & Hr & Hrec). exists r.
  apply make_record_row in Hrec.
  destruct Hrec as (Hid & Hov & Hdate & _ & Hg & Hk & He & Ht).
  pose proof (proj2 (valid_movies_valid _ _ Hr)) as Hv.
  apply is_valid_spec in Hv. destruct Hv as (i & t & ov & _ & Htitle & _).
  repeat split; try assumption.
  - rewrite Htitle. f_equal. symmetry. now apply Ht.
  - congruence.
Qed.

(** X8.  What a run of [main] asks of the services, whether it returns
    or raises: embeddings from the configured model for at least one and
    at most [BATCH_SIZE] texts at a time, upserts of at least one and at
    most [BATCH_SIZE] rows at a time, and never a search. *)
Theorem ingestion_calls_in_batches (movies_df : list Row.t) (w : World) :
  exists made : list call,
    calls (snd (embed_movies.main movies_df w)) = calls w ++ made
    /\ Forall batch_call made.
Proof.
  destruct (main_made movies_df)
    as (records & o & made & Hrun & _ & Hcalls & _).
  exists made. rewrite Hrun. auto.
Qed.

End IngestionProperties.

(** ** More on the embedding text *)

Section TextProperties.
Context {C : Collaborators}.

Lemma firstn_app_enough {A : Type} (n : nat) (l extra : list A) :
  n <= length l -> firstn n (l ++ extra) = firstn n l.
Proof.
  intros Hlen. rewrite firstn_app.
  replace (n - length l) with 0 by lia. simpl. apply app_nil_r.
Qed.

(** X9.  Keyword names past the twentieth change neither the embedding
    text nor the record: the text and the stored keywords are those of
    the first 20. *)
Theorem keywords_past_twenty_ignored
    (row : Row.t) (extra : list string) (e : vector) :
  20 <= length (Row.keyword_names row) ->
  embed_movies.build_embedding_text
    (with_keyword_names row (Row.keyword_names row ++ extra))
  = embed_movies.build_embedding_text row
  /\ embed_movies.make_record
       (with_keyword_names row (Row.keyword_names row ++ extra)) e
     = embed_movies.make_record row e.
Proof.
  intros Hlen.
  unfold embed_movies.build_embedding_text, embed_movies.make_record,
    with_keyword_names.
  cbn [Row.id Row.title Row.overview Row.release_date Row.poster_path
       Row.genre_names Row.keyword_names Row.vote_average Row.vote_count].
  now rewrite (firstn_app_enough 20 _ extra Hlen).
Qed.

(** Joined names are empty for no name and for one empty name only. *)
Lemma join_names_empty (names : list string) :
  Py.join ", " names = "" <-> names = [] \/ names = [""].
Proof.
  unfold Py.join. split.
  - destruct names as [|n [|n' names]]; simpl.
    + auto.
    + intros ->. auto.
    + destruct n; discriminate.
  - intros [->| ->]; reflexivity.
Qed.

(** X10.  The genres segment is left out exactly for a row with no genre
    name or with a single empty one: the script tests the joined names,
    not the list.  With any other list the text has the segment, even
    when some of the names are empty. *)
Theorem genres_segment_presence (row : Row.t) (t o : string) :
  Row.title row = Some t -> Row.overview row = Some o ->
  let keywords := Py.join ", " (firstn 20 (Row.keyword_names row)) in
  (Row.genre_names row = [] \/ Row.genre_names row = [""] ->
   embed_movies.build_embedding_text row
   = Return (t ++ segment "" o ++ segment "Keywords: " keywords)%string)
  /\ (Row.genre_names row <> [] -> Row.genre_names row <> [""] ->
      embed_movies.build_embedding_text row
      = Return (t ++ segment "" o ++ ". Genres: "
                  ++ Py.join ", " (Row.genre_names row)
                  ++ segment "Keywords: " keywords)%string).
Proof.
  intros Ht Ho keywords.
  rewrite (build_embedding_text_joined row t o Ht Ho).
  unfold joined_embedding_text. fold keywords. split.
  - intros Hnone. apply join_names_empty in Hnone. now rewrite Hnone.
  - intros Hne Hne'.
    assert (Hj : Py.join ", " (Row.genre_names row) <> "").
    { intros E. apply join_names_empty in E. tauto. }
    rewrite (segment_present _ _ Hj). simpl.
    now rewrite ?append_assoc.
Qed.

End TextProperties.

(** ** More on the query service *)

Section SearchProperties.
Context {C : Collaborators}.

(** The number of results of a response. *)
Lemma search_results_length
    (request : SearchRequest) (w : World) (resp : SearchResponse) :
  fst (main.search_movies request w) = Return resp ->
  length (results resp)
  = Nat.min (Z.to_nat (limit request)) (length (embedded (movies w))).
Proof.
  intros Hret.
  destruct (search_movies_returns request w resp Hret)
    as (qv & rest & _ & _ & _ & Hres).
  rewrite Hres. now rewrite !length_map, length_firstn, order_by_length.
Qed.

(** With a limit that covers them and is in the range of [INT], and
    stored vectors of the dimension of the query vector, a search lists
    the ids of all the rows that have a vector. *)
Lemma search_lists_all
    (request : SearchRequest) (w : World) (qv : vector) (rest : list vector) :
  Py.all_space (query request) = false ->
  embeddings_create main.EMBEDDING_MODEL [query request] = Some (qv :: rest) ->
  (Z.of_nat (length (embedded (movies w))) <= limit request
   <= 2147483647)%Z ->
  (forall m e,
     In m (movies w) -> Movie.embedding m = Some e ->
     dimensions e = dimensions qv) ->
  exists resp,
    fst (main.search_movies request w) = Return resp
    /\ Permutation (map MovieResult.id (results resp))
         (map (fun me => Movie.id (fst me)) (embedded (movies w))).
Proof.
  intros Hq He Hl Hdim.
  rewrite (search_movies_run request w qv rest Hq He).
  rewrite match_movies_answers; [|lia|now right].
  eexists. split; [reflexivity|].
  simpl. rewrite firstn_all2 by (rewrite order_by_length; lia).
  rewrite id_column. apply Permutation_map, order_by_Permutation.
Qed.

(** X11.  A search writes nothing: the table is as it was.  What it asks
    of the services is at most one embedding of the query as it was sent,
    not stripped, then at most one call of [match_movies] with the vector
    that came back and the limit of the request; without a vector there
    is no call of [match_movies]. *)
Theorem search_reads_only (request : SearchRequest) (w : World) :
  movies (snd (main.search_movies request w)) = movies w
  /\ exists made : list call,
       calls (snd (main.search_movies request w)) = calls w ++ made
       /\ (made = []
           \/ made = [EmbeddingsCreate main.EMBEDDING_MODEL [query request]]
           \/ exists qv rest,
                embeddings_create main.EMBEDDING_MODEL [query request]
                = Some (qv :: rest)
                /\ made
                   = [EmbeddingsCreate main.EMBEDDING_MODEL [query request];
                      RpcMatchMovies qv (limit request)]).
Proof.
  unfold main.search_movies.
  destruct (negb (Py.truthy (Py.strip (query request)))).
  - split; [reflexivity|]. exists []. simpl. rewrite app_nil_r. auto.
  - unfold bind, openai_embeddings_create.
    destruct (embeddings_create main.EMBEDDING_MODEL [query request])
      as [[|qv rest]|] eqn:He; simpl.
    + split; [reflexivity|]. eexists. split; [reflexivity|]. auto.
    + unfold rpc_match_movies. simpl.
      assert (Hw : forall o : outcome (list Match.t),
                (let (o', w') :=
                   match o with
                   | Return data =>
                       (Return data,
                        log (RpcMatchMovies qv (limit request))
                          (log (EmbeddingsCreate main.EMBEDDING_MODEL
                                  [query request]) w))
                   | Raise e =>
                       (@Raise (list Match.t) e,
                        log (RpcMatchMovies qv (limit request))
                          (log (EmbeddingsCreate main.EMBEDDING_MODEL
                                  [query request]) w))
                   end in
                 w')
                = log (RpcMatchMovies qv (limit request))
                    (log (EmbeddingsCreate main.EMBEDDING_MODEL
                            [query request]) w)).
      { intros [data|e]; reflexivity. }
      destruct (match_movies qv (limit request) (movies w)); simpl.
      * split; [reflexivity|]. eexists.
        split; [rewrite <- app_assoc; reflexivity|]. right. right. eauto.
      * split; [reflexivity|]. eexists.
        split; [rewrite <- app_assoc; reflexivity|]. right. right. eauto.
    + split; [reflexivity|]. eexists. split; [reflexivity|]. auto.
Qed.

(** X12.  A response lists exactly as many results as the limit allows
    and the table has rows with a vector, and under the primary key no
    two of its results have the same id. *)
Theorem search_result_count
    (request : SearchRequest) (w : World) (resp : SearchResponse) :
  fst (main.search_movies request w) = Return resp ->
  length (results resp)
  = Nat.min (Z.to_nat (limit request)) (length (embedded (movies w)))
  /\ (NoDup (map Movie.id (movies w)) ->
      NoDup (map MovieResult.id (results resp))).
Proof.
  intros Hret. split; [now apply search_results_length|].
  destruct (search_movies_returns request w resp Hret)
    as (qv & rest & _ & _ & _ & Hres).
  rewrite Hres.
  - intros Hnd. rewrite id_column.
    assert (Hall : NoDup (map (fun me : Movie.t * vector => Movie.id (fst me))
                            (order_by (distance qv) (embedded (movies w))))).
    { apply (Permutation_NoDup
               (l := map (fun me => Movie.id (fst me))
                       (embedded (movies w)))).
      - apply Permutation_map. symmetry. apply order_by_Permutation.
      - now apply embedded_ids_NoDup. }
    rewrite <- (firstn_skipn (Z.to_nat (limit request)) (map _ _)) in Hall.
    apply NoDup_app_remove_r in Hall. now rewrite firstn_map in Hall.
Qed.

(** X13.  For the same query on the same rows, in whatever order the
    scan delivers them and however rows of equal distance are arranged,
    the similarities of the response to a larger limit begin with the
    similarities of the response to a smaller one: raising the limit only
    adds similarities after those already listed.  Which of several rows
    of equal distance are listed is left open by [ORDER BY]. *)
Theorem larger_limit_extends {O : Float8Order C}
    (r1 r2 : SearchRequest) (w1 w2 : World) (resp1 resp2 : SearchResponse) :
  query r1 = query r2 -> (limit r1 <= limit r2)%Z ->
  Permutation (movies w1) (movies w2) ->
  fst (main.search_movies r1 w1) = Return resp1 ->
  fst (main.search_movies r2 w2) = Return resp2 ->
  exists more,
    map MovieResult.similarity (results resp2)
    = map MovieResult.similarity (results resp1) ++ more.
Proof.
  intros Hq Hl Hp Hret1 Hret2.
  destruct (search_movies_returns r1 w1 resp1 Hret1)
    as (qv & rest & _ & He1 & Hl1 & Hres1).
  destruct (search_movies_returns r2 w2 resp2 Hret2)
    as (qv' & rest' & _ & He2 & _ & Hres2).
  rewrite Hq, He2 in He1. injection He1 as -> ->.
  rewrite Hres1, Hres2, !similarity_column, <- !firstn_map.
  rewrite (distance_column_scan_order qv _ _ (embedded_Permutation _ _ Hp)).
  replace (Z.to_nat (limit r2))
    with (Z.to_nat (limit r1) + (Z.to_nat (limit r2) - Z.to_nat (limit r1)))
    by lia.
  rewrite firstn_add. eauto.
Qed.

(** X14.  Take a provider that answers every call with one vector for
    each text, each of the dimension of the column [embedding]; valid
    movies whose records fit the other columns of the table; and a table
    whose vectors have that dimension.  Then a run of [main] returns, and
    a search on the table it leaves, with a query that is not blank and a
    limit of at least the number of rows of the table and in the range of
    [INT], lists every valid movie of the data frame. *)
Theorem ingested_movies_are_found
    (movies_df : list Row.t) (w : World) (request : SearchRequest)
    (r : Row.t) :
  (forall texts, exists es,
      embeddings_create embed_movies.EMBEDDING_MODEL texts = Some es
      /\ length es = length texts
      /\ Forall (fun e => dimensions e = vector_dimensions) es) ->
  (forall r' e m,
      In r' (embed_movies.valid_movies movies_df) ->
      embed_movies.make_record r' e = Return m ->
      dimensions e = vector_dimensions ->
      fits_columns m = true) ->
  (forall m e,
      In m (movies w) -> Movie.embedding m = Some e ->
      dimensions e = vector_dimensions) ->
  Py.all_space (query request) = false ->
  (Z.of_nat (length (movies (snd (embed_movies.main movies_df w))))
   <= limit request <= 2147483647)%Z ->
  In r (embed_movies.valid_movies movies_df) ->
  fst (embed_movies.main movies_df w) = Return tt
  /\ exists resp result,
       fst (main.search_movies request (snd (embed_movies.main movies_df w)))
       = Return resp
       /\ In result (results resp)
       /\ Row.id r = Some (MovieResult.id result).
Proof.
  intros Hprovider Hrows Htable Hq Hlimit Hr.
  assert (Hanswers : forall texts, exists es,
             embeddings_create embed_movies.EMBEDDING_MODEL texts = Some es
             /\ length es = length texts).
  { intros texts. destruct (Hprovider texts) as (es & He & Hlen & _). eauto. }
  assert (Hfit : forall r' texts es e m,
             In r' (embed_movies.valid_movies movies_df) ->
             embeddings_create embed_movies.EMBEDDING_MODEL texts = Some es ->
             In e es ->
             embed_movies.make_record r' e = Return m ->
             fits_columns m = true).
  { intros r' texts es e m Hr' He Hin Hm. apply (Hrows r' e m Hr' Hm).
    destruct (Hprovider texts) as (es' & He' & _ & Hdim).
    rewrite He in He'. injection He' as <-.
    rewrite Forall_forall in Hdim. now apply Hdim. }
  destruct (ingestion_completes movies_df w Hanswers Hfit)
    as [Hdone Hstored].
  split; [exact Hdone|].
  destruct (Hstored r Hr) as (m & Hm & Hid & Hemb).
  destruct (Hprovider [query request]) as (es & He & Hlen & Hqdim).
  destruct es as [|qv rest]; [discriminate Hlen|].
  apply Forall_inv in Hqdim.
  assert (Hdims : forall m' e',
             In m' (movies (snd (embed_movies.main movies_df w))) ->
             Movie.embedding m' = Some e' ->
             dimensions e' = dimensions qv).
  { intros m' e' Hm' He'. rewrite Hqdim.
    now apply (ingestion_keeps_dimension movies_df w Htable m' e'). }
  set (w' := snd (embed_movies.main movies_df w)) in *.
  assert (Hcount : length (embedded (movies w')) <= length (movies w')).
  { clear. induction (movies w') as [|x l IH]; simpl; [lia|].
    destruct (Movie.embedding x); simpl; lia. }
  destruct (search_lists_all request w' qv rest Hq He)
    as (resp & Hresp & Hperm); [lia | exact Hdims |].
  destruct (Movie.embedding m) as [e|] eqn:Hme; [|congruence].
  assert (Hin : In (Movie.id m) (map MovieResult.id (results resp))).
  { apply (Permutation_in (l := map (fun me => Movie.id (fst me))
                                  (embedded (movies w')))).
    - now symmetry.
    - apply in_map_iff. exists (m, e). split; [reflexivity|].
      now apply embedded_In. }
  apply in_map_iff in Hin. destruct Hin as (result & Hrid & Hres).
  exists resp, result. repeat split; [assumption.. | congruence].
Qed.

End SearchProperties.

(** ** One model and one dimension *)

Section ModelAndDimension.
Context {C : Collaborators}.


End ModelAndDimension.

(** ** The poster update *)

Section PosterProperties.
Context {C : Collaborators}.

Lemma filter_length_le {A : Type} (p : A -> bool) (l : list A) :
  length (filter p l) <= length l.
Proof.
  induction l as [|x l IH]; simpl; [lia|]. destruct (p x); simpl; lia.
Qed.

Lemma filter_keeps_all {A : Type} (p : A -> bool) (l : list A) :
  (forall x, In x l -> p x = true) -> filter p l = l.
Proof.
  induction l as [|x l IH]; simpl; intros Hall; [reflexivity|].
  rewrite (Hall x) by now left. f_equal. apply IH. intros y Hy.
  apply Hall. now right.
Qed.

Lemma filter_keeps_none {A : Type} (p : A -> bool) (l : list A) :
  (forall x, In x l -> p x = false) -> filter p l = [].
Proof.
  induction l as [|x l IH]; simpl; intros Hall; [reflexivity|].
  rewrite (Hall x) by now left. apply IH. intros y Hy.
  apply Hall. now right.
Qed.

(** The rows that fail a test followed by the rows that pass it are the
    rows. *)
Lemma filter_split_Permutation {A : Type} (p : A -> bool) (l : list A) :
  Permutation (filter (fun x => negb (p x)) l ++ filter p l) l.
Proof.
  induction l as [|x l IH]; simpl; [constructor|].
  destruct (p x); simpl.
  - symmetry. apply Permutation_cons_app. now symmetry.
  - now constructor.
Qed.

(** The vectors of the table after the update are the vectors of the
    table before. *)
Lemma bulk_update_posters_vectors
    (updates : list (option Z * option string)) (table : list Movie.t) :
  Permutation
    (map Movie.embedding (fst (bulk_update_posters updates table)))
    (map Movie.embedding table).
Proof.
  unfold bulk_update_posters. cbn [fst].
  rewrite map_app, map_map.
  rewrite (map_ext
             (fun m =>
                Movie.embedding
                  match find (joins m) (rev updates) with
                  | Some u => set_poster_path m (snd u)
                  | None => m
                  end)
             Movie.embedding).
  - rewrite <- map_app. apply Permutation_map, filter_split_Permutation.
  - intros m. now destruct (find (joins m) (rev updates)).
Qed.

(** X15.  [bulk_update_posters] changes poster paths and nothing else:
    with the poster paths left out, the rows of the table after it are
    the rows of the table before, each once, in some order; and the count
    it returns is between 0 and the number of rows.  With no record, or
    with records of NULL id only, it changes nothing and returns 0. *)
Theorem bulk_update_posters_only_posters
    (updates : list (option Z * option string)) (table : list Movie.t) :
  Permutation
    (map (fun m => set_poster_path m None)
       (fst (bulk_update_posters updates table)))
    (map (fun m => set_poster_path m None) table)
  /\ (0 <= snd (bulk_update_posters updates table)
      <= Z.of_nat (length table))%Z
  /\ ((forall u, In u updates -> fst u = None) ->
      bulk_update_posters updates table = (table, 0%Z)).
Proof.
  unfold bulk_update_posters. cbn [fst snd]. split; [|split].
  - rewrite map_app, map_map.
    rewrite (map_ext
               (fun m =>
                  set_poster_path
                    match find (joins m) (rev updates) with
                    | Some u => set_poster_path m (snd u)
                    | None => m
                    end None)
               (fun m => set_poster_path m None)).
    + rewrite <- map_app. apply Permutation_map, filter_split_Permutation.
    + intros m. now destruct (find (joins m) (rev updates)).
  - pose proof (filter_length_le (fun m => existsb (joins m) updates) table).
    lia.
  - intros Hnull.
    assert (Hno : forall m, existsb (joins m) updates = false).
    { intros m. destruct (existsb (joins m) updates) eqn:Hex; [|reflexivity].
      apply existsb_exists in Hex. destruct Hex as (u & Hu & Hj).
      unfold joins in Hj. rewrite (Hnull u Hu) in Hj. discriminate. }
    rewrite (filter_keeps_none (fun m => existsb (joins m) updates))
      by (intros m _; apply Hno).
    rewrite filter_keeps_all by (intros m _; now rewrite Hno).
    simpl. now rewrite app_nil_r.
Qed.

(** X16.  A row whose id is the id of no record stands as it stood; a
    row whose id has records, all with the same poster path, gets that
    poster path, NULL included. *)
Theorem bulk_update_posters_effect
    (updates : list (option Z * option string)) (table : list Movie.t)
    (m : Movie.t) :
  In m table ->
  (~ In (Some (Movie.id m)) (map fst updates) ->
   In m (fst (bulk_update_posters updates table)))
  /\ forall p,
       In (Some (Movie.id m), p) updates ->
       (forall p', In (Some (Movie.id m), p') updates -> p' = p) ->
       In (set_poster_path m p) (fst (bulk_update_posters updates table)).
Proof.
  intros Hm. unfold bulk_update_posters. cbn [fst].
  assert (Hjoin : forall u, joins m u = true <-> fst u = Some (Movie.id m)).
  { intros [[i|] p]; unfold joins; simpl.
    - rewrite Z.eqb_eq. split; congruence.
    - split; discriminate. }
  split.
  - intros Hnot. apply in_or_app. left. apply filter_In.
    split; [assumption|].
    destruct (existsb (joins m) updates) eqn:Hex; [|reflexivity].
    apply existsb_exists in Hex. destruct Hex as (u & Hu & Hj).
    apply Hjoin in Hj. exfalso. apply Hnot. rewrite <- Hj.
    now apply in_map.
  - intros p Hp Hsame.
    assert (Ht : joins m (Some (Movie.id m), p) = true) by now apply Hjoin.
    apply in_or_app. right. apply in_map_iff. exists m. split.
    + destruct (find (joins m) (rev updates)) as [[i p']|] eqn:Hf.
      * apply find_some in Hf. destruct Hf as [Hu Hj]. apply Hjoin in Hj.
        simpl in Hj. subst i. simpl. f_equal. apply Hsame.
        now apply in_rev.
      * exfalso. apply in_rev in Hp. apply (find_none _ _ Hf) in Hp.
        congruence.
    + apply filter_In. split; [assumption|]. apply existsb_exists.
      now exists (Some (Movie.id m), p).
Qed.

(** X17.  The same update applied again changes nothing more and
    returns the same count. *)
Theorem bulk_update_posters_idempotent
    (updates : list (option Z * option string)) (table : list Movie.t) :
  bulk_update_posters updates (fst (bulk_update_posters updates table))
  = bulk_update_posters updates table.
Proof.
  unfold bulk_update_posters. cbn [fst].
  set (U := fun m : Movie.t =>
              match find (joins m) (rev updates) with
              | Some u => set_poster_path m (snd u)
              | None => m
              end).
  assert (HjU : forall m,
             existsb (joins (U m)) updates = existsb (joins m) updates).
  { intros m. unfold U. now destruct (find (joins m) (rev updates)). }
  assert (HUU : forall m, U (U m) = U m).
  { intros m. unfold U at 2.
    destruct (find (joins m) (rev updates)) as [u|] eqn:Hf.
    - unfold U.
      change (find (joins (set_poster_path m (snd u))) (rev updates))
        with (find (joins m) (rev updates)).
      now rewrite Hf.
    - unfold U. now rewrite Hf. }
  rewrite !filter_app.
  rewrite (filter_keeps_all (fun m => negb (existsb (joins m) updates))
             (filter (fun m => negb (existsb (joins m) updates)) table))
    by (intros m Hm; now apply filter_In in Hm).
  rewrite (filter_keeps_none (fun m => existsb (joins m) updates)
             (filter (fun m => negb (existsb (joins m) updates)) table))
    by (intros m Hm; apply filter_In in Hm; now apply negb_true_iff).
  rewrite (filter_keeps_none (fun m => negb (existsb (joins m) updates))
             (map U (filter (fun m => existsb (joins m) updates) table))).
  2:{ intros m Hm. apply in_map_iff in Hm.
      destruct Hm as (x & <- & Hx). apply filter_In in Hx.
      rewrite HjU. now rewrite (proj2 Hx). }
  rewrite (filter_keeps_all (fun m => existsb (joins m) updates)
             (map U (filter (fun m => existsb (joins m) updates) table))).
  2:{ intros m Hm. apply in_map_iff in Hm.
      destruct Hm as (x & <- & Hx). apply filter_In in Hx.
      rewrite HjU. exact (proj2 Hx). }
  rewrite app_nil_r. cbn [app]. rewrite map_map, length_map.
  f_equal. f_equal. apply map_ext. exact HUU.
Qed.

(** X18.  A search after [bulk_update_posters], in whatever order the
    scan then delivers the rows, is the search before it as far as the
    vectors go: for the same request it raises what that raised, and
    otherwise returns a response with the same similarities in the same
    order, and so with as many results. *)
Theorem search_after_poster_update {O : Float8Order C}
    (updates : list (option Z * option string)) (request : SearchRequest)
    (w w' : World) :
  Permutation (movies w')
    (fst (bulk_update_posters updates (movies w))) ->
  (forall e,
     fst (main.search_movies request w) = Raise e ->
     fst (main.search_movies request w') = Raise e)
  /\ forall resp,
       fst (main.search_movies request w) = Return resp ->
       exists resp',
         fst (main.search_movies request w') = Return resp'
         /\ map MovieResult.similarity (results resp')
            = map MovieResult.similarity (results resp).
Proof.
  intros Hp. apply search_same_vectors.
  transitivity
    (map Movie.embedding (fst (bulk_update_posters updates (movies w)))).
  - symmetry. apply bulk_update_posters_vectors.
  - symmetry. now apply Permutation_map.
Qed.

End PosterProperties.

(** ** The page *)

Section PageProperties.
Context {C : Collaborators}.

(** X19.  While a search is pending the page shows the loading line, no
    error and no "no movies" line, and the grid of the search before.
    Once it has settled, the loading line is gone and exactly one block
    is shown: the error line, the "no movies" line, or a grid that is not
    empty. *)
Theorem page_shows_one_block (f : page.fetched) (s : page.state) :
  page.render (page.handleSearch_pending s)
  = page.mkView false true false (page.grid (page.render s))
  /\ let v := page.render (page.handleSearch f s) in
     page.loading_line v = false
     /\ ((page.error_line v = true /\ page.no_movies_line v = false
          /\ page.grid v = [])
         \/ (page.error_line v = false /\ page.no_movies_line v = true
             /\ page.grid v = [])
         \/ (page.error_line v = false /\ page.no_movies_line v = false
             /\ page.grid v <> [])).
Proof.
  split; [reflexivity|].
  destruct f as [|status [[|r results]|]]; simpl.
  - split; [reflexivity|]. left. repeat split.
  - destruct (page.ok status); simpl; (split; [reflexivity|]).
    + right. left. repeat split.
    + left. repeat split.
  - destruct (page.ok status); simpl; (split; [reflexivity|]).
    + right. right. repeat split. discriminate.
    + left. repeat split.
  - split; [reflexivity|]. left. repeat split.
Qed.

(** X20.  What the page holds after a search against the backend: when
    the backend returns, its results, at most ten, and no error; when
    the backend raises, whatever the exception, no movie and the error
    line. *)
Theorem page_follows_backend (query : string) (w : World) (s : page.state) :
  let s' := page.handleSearch (page.fetch_search query w) s in
  match fst (main.search_movies (page.request_body query) w) with
  | Return resp =>
      page.movies s' = results resp /\ page.error s' = None
      /\ length (page.movies s') <= 10
  | Raise _ =>
      page.movies s' = []
      /\ page.error_line (page.render s') = true
  end.
Proof.
  intros s'. unfold s', page.fetch_search.
  destruct (fst (main.search_movies (page.request_body query) w))
    as [resp|e] eqn:Hret; simpl.
  - repeat split.
    pose proof (search_results_length _ _ _ Hret) as Hlen.
    change (Z.to_nat (limit (page.request_body query))) with 10 in Hlen.
    lia.
  - auto.
Qed.

End PageProperties.

(** ** The search bar *)

Section SearchBarProperties.

Lemma trimStart_all_space (s : string) :
  Js.all_space (Js.trimStart s) = Js.all_space s.
Proof.
  induction s as [|c s IH]; simpl; [reflexivity|].
  destruct (Js.isspace c) eqn:Hc; simpl; [assumption|].
  now rewrite Hc.
Qed.

Lemma trimEnd_empty (s : string) :
  Js.trimEnd s = "" <-> Js.all_space s = true.
Proof.
  induction s as [|c s IH]; simpl; [tauto|].
  destruct (Js.trimEnd s) eqn:Hr.
  - destruct (Js.isspace c); simpl.
    + split; intros _; [now apply IH | reflexivity].
    + split; discriminate.
  - split; [discriminate|]. intros Hs. apply andb_true_iff in Hs.
    destruct Hs as [_ Hs]. apply IH in Hs. discriminate Hs.
Qed.

Lemma trimEnd_idempotent (s : string) :
  Js.trimEnd (Js.trimEnd s) = Js.trimEnd s.
Proof.
  induction s as [|c s IH]; simpl; [reflexivity|].
  destruct (Js.trimEnd s) as [|d r] eqn:Hr.
  - destruct (Js.isspace c) eqn:Hc; simpl; [reflexivity|]. now rewrite Hc.
  - change (Js.trimEnd (String c (String d r)))
      with (match Js.trimEnd (String d r) with
            | EmptyString =>
                if Js.isspace c then EmptyString else String c EmptyString
            | String a r' => String c (String a r')
            end).
    now rewrite IH.
Qed.

(** Trimming the end keeps the first character of a string that begins
    with a character that is not white space. *)
Lemma trimEnd_head (c : ascii) (s : string) :
  Js.isspace c = false -> exists r, Js.trimEnd (String c s) = String c r.
Proof.
  intros Hc. simpl. destruct (Js.trimEnd s); [rewrite Hc|]; eauto.
Qed.

Lemma trimStart_head (s : string) :
  Js.trimStart s = ""
  \/ exists c r, Js.trimStart s = String c r /\ Js.isspace c = false.
Proof.
  induction s as [|c s IH]; simpl; [now left|].
  destruct (Js.isspace c) eqn:Hc; [exact IH|]. right. eauto.
Qed.

Lemma trim_idempotent (s : string) : Js.trim (Js.trim s) = Js.trim s.
Proof.
  unfold Js.trim.
  destruct (trimStart_head s) as [->|(c & r & -> & Hc)]; [reflexivity|].
  destruct (trimEnd_head c r Hc) as [r' E]. rewrite E.
  simpl Js.trimStart. rewrite Hc. rewrite <- E.
  apply trimEnd_idempotent.
Qed.

(** X21.  [handleSubmit] calls [onSearch] for a query with a character
    that is not white space, and for no other; what it passes is the
    query trimmed, which is not empty, not blank, and trimmed already. *)
Theorem handleSubmit_sends_trimmed (query : string) :
  (SearchBar.handleSubmit query = None <-> Js.all_space query = true)
  /\ forall sent,
       SearchBar.handleSubmit query = Some sent ->
       sent = Js.trim query /\ sent <> ""
       /\ Js.all_space sent = false /\ Js.trim sent = sent.
Proof.
  unfold SearchBar.handleSubmit, Js.truthy.
  assert (Hblank : Js.trim query = "" <-> Js.all_space query = true).
  { unfold Js.trim. now rewrite trimEnd_empty, trimStart_all_space. }
  destruct (String.eqb_spec (Js.trim query) "") as [E|N]; simpl.
  - split; [tauto | discriminate].
  - split; [split; [discriminate | intros H; apply Hblank in H; tauto]|].
    intros sent Hs. injection Hs as <-. repeat split; [assumption| |].
    + destruct (Js.all_space (Js.trim query)) eqn:Hall; [|reflexivity].
      exfalso. apply N.
      assert (Ht : Js.trim (Js.trim query) = "").
      { unfold Js.trim at 1. now rewrite trimEnd_empty, trimStart_all_space. }
      now rewrite trim_idempotent in Ht.
    + apply trim_idempotent.
Qed.

End SearchBarProperties.

(** * The properties on the small catalogue *)

#[local] Existing Instance Sample.provider.

(** The integers of the stand-in are ordered as [Float8Order] asks. *)
Lemma sample_order : Float8Order Sample.provider.
Proof.
  constructor; cbn.
  - intros a b. rewrite !Z.leb_le. lia.
  - intros a b c. rewrite !Z.leb_le. lia.
  - intros a b. rewrite !Z.leb_le. lia.
  - intros a b. rewrite !Z.leb_le. intros Hab.
    change (1 - b <= 1 - a)%Z. lia.
Qed.

Lemma sample_world_ids :
  NoDup (map Movie.id (movies Sample.world)).
Proof.
  vm_compute. repeat constructor; simpl; intuition discriminate.
Qed.

(** C1 on Titanic: all four segments, each led by a period and a space. *)
Lemma embedding_text_segments_witness :
  embed_movies.build_embedding_text Sample.titanic
  = Return
      "Titanic. A ship sinks.. Genres: Drama, Romance. Keywords: iceberg, ship".
Proof.
  refine (proj2 (proj2 (embedding_text_segments Sample.titanic
                          "Titanic" "A ship sinks." eq_refl eq_refl))
            _ _ _); discriminate.
Defined.

(** C1 as the design document words it fails on Titanic: the script puts
    a period and a space, not a single space, before ["Genres:"]. *)
Lemma documented_embedding_text_differs :
  embed_movies.build_embedding_text Sample.titanic
  <> Return
       (documented_embedding_text "Titanic" "A ship sinks."
          ["Drama"; "Romance"] ["iceberg"; "ship"]).
Proof. vm_compute. discriminate. Qed.


(** C3 on the catalogue: two results at most, the nearest first. *)
Lemma search_bounded_and_ranked_witness :
  exists resp : SearchResponse,
    fst (main.search_movies (Sample.ship 2) Sample.world) = Return resp
    /\ length (results resp) <= 2
    /\ StronglySorted
         (fun a b =>
            float8_le (MovieResult.similarity b) (MovieResult.similarity a)
            = true)
         (results resp).
Proof.
  destruct (@search_bounded_and_ranked Sample.provider sample_order
              (Sample.ship 2) Sample.world eq_refl) as [Hall Hex].
  assert (Hmax : (limit (Sample.ship 2) <= 2147483647)%Z)
    by (vm_compute; discriminate).
  destruct (Hex eq_refl Hmax Sample.East [] eq_refl) as [resp Hresp];
    [intros m e _ _; reflexivity|].
  exists resp. split; [exact Hresp|].
  destruct (Hall resp Hresp) as (Hlen & Hsorted & _).
  split; [exact Hlen | exact Hsorted].
Defined.

(** C4 on a query of three spaces. *)
Lemma blank_query_rejected_witness :
  main.search_movies Sample.blank Sample.world
  = (Raise (HTTPException 400 "Query cannot be empty"), Sample.world).
Proof.
  exact (proj1 (blank_query_rejected Sample.blank Sample.world eq_refl)).
Defined.

(** C5 on the catalogue and on the catalogue scanned backwards: the same
    similarities. *)
Lemma ties_keep_similarity_not_id_order_witness :
  map MovieResult.similarity
    (match fst (main.search_movies (Sample.ship 10) Sample.world) with
     | Return resp => results resp
     | Raise _ => []
     end)
  = map MovieResult.similarity
      (match fst (main.search_movies (Sample.ship 10) Sample.world_reversed)
       with
       | Return resp => results resp
       | Raise _ => []
       end).
Proof.
  destruct (fst (main.search_movies (Sample.ship 10) Sample.world))
    as [resp1|e1] eqn:H1; [|vm_compute in H1; discriminate H1].
  destruct (fst (main.search_movies (Sample.ship 10) Sample.world_reversed))
    as [resp2|e2] eqn:H2; [|vm_compute in H2; discriminate H2].
  refine (proj1 (@ties_keep_similarity_not_id_order Sample.provider
                   sample_order (Sample.ship 10) Sample.world
                   Sample.world_reversed resp1 resp2 sample_world_ids _ H1 H2)).
  apply Permutation_rev.
Defined.

(** C5 as stated fails on the catalogue: the two Twins have equal
    similarity, and the one of id 2, ingested first, stands before the one
    of id 1. *)
Lemma ties_not_in_id_order :
  exists resp : SearchResponse,
    fst (main.search_movies (Sample.ship 10) Sample.world) = Return resp
    /\ map (fun r => (MovieResult.id r, MovieResult.similarity r))
         (results resp)
       = [(597, 1); (2, 1); (1, 1); (8, 1); (14160, -1); (11, -1)]%Z
    /\ ties_in_id_order (results resp) = false.
Proof. eexists. split; [vm_compute; reflexivity|]. split; reflexivity. Qed.

(** C6 on the catalogue: limit 0 is served with no results, limit -1 ends
    as status 500, limit 10 lists the six rows that have a vector, and
    limit 2147483648 ends as status 500. *)
Lemma limit_is_not_validated_witness :
  fst (main.search_movies (Sample.ship 0) Sample.world)
  = Return (mkSearchResponse [])
  /\ status_code (fst (main.search_movies (Sample.ship (-1)) Sample.world))
     = 500
  /\ (exists resp : SearchResponse,
        fst (main.search_movies (Sample.ship 10) Sample.world) = Return resp
        /\ length (results resp) = 6)
  /\ status_code
       (fst (main.search_movies (Sample.ship 2147483648) Sample.world))
     = 500.
Proof.
  split; [|split; [|split]].
  - exact (proj1 (proj1 (limit_is_not_validated (Sample.ship 0) Sample.world
                           Sample.East [] eq_refl eq_refl) eq_refl)).
  - exact (proj1 (proj2 (proj1 (proj2
             (limit_is_not_validated (Sample.ship (-1)) Sample.world
                Sample.East [] eq_refl eq_refl)) eq_refl))).
  - destruct (proj1 (proj2 (proj2
                (limit_is_not_validated (Sample.ship 10) Sample.world
                   Sample.East [] eq_refl eq_refl))))
      as (resp & Hresp & Hlen & _).
    + vm_compute. split; discriminate.
    + intros m e _ _. reflexivity.
    + exists resp. split; [exact Hresp | exact Hlen].
  - exact (proj2 (proj2 (proj2 (proj2
             (limit_is_not_validated (Sample.ship 2147483648) Sample.world
                Sample.East [] eq_refl eq_refl))) eq_refl)).
Defined.

(** C6 as stated fails on the catalogue: a request with limit 0 is not a
    validation error, it is answered 200 with an empty list. *)
Lemma limit_zero_is_served :
  fst (main.search_movies (Sample.ship 0) Sample.world)
  = Return (mkSearchResponse [])
  /\ status_code (fst (main.search_movies (Sample.ship 0) Sample.world))
     = 200.
Proof. split; reflexivity. Qed.

(** C7 on the catalogue: the row of id 7 has no vector and is no result. *)
Lemma null_vectors_excluded_witness :
  exists resp : SearchResponse,
    fst (main.search_movies (Sample.ship 10) Sample.world) = Return resp
    /\ ~ In 7%Z (map MovieResult.id (results resp)).
Proof.
  eexists. split; [vm_compute; reflexivity|].
  refine (proj1 (null_vectors_excluded (Sample.ship 10) Sample.world
                   sample_world_ids) _ Sample.unembedded _ _ eq_refl).
  - vm_compute. reflexivity.
  - unfold Sample.world. cbn [movies]. apply in_or_app. right. now left.
Defined.

(** C8 on overviews of ten and of eleven characters. *)
Lemma overview_length_threshold_witness :
  ~ In Sample.ten (embed_movies.valid_movies Sample.movies_df)
  /\ In (Some 11%Z)
       (map Row.id (embed_movies.valid_movies Sample.movies_df)).
Proof.
  split.
  - exact (proj2 (proj1 (overview_length_threshold Sample.movies_df
                           Sample.ten "0123456789" eq_refl) eq_refl)).
  - refine (proj2 (proj2 (overview_length_threshold Sample.movies_df
                            Sample.eleven "0123456789A" eq_refl)
                     eq_refl _ _ _)).
    + discriminate.
    + discriminate.
    + unfold Sample.movies_df. simpl. tauto.
Defined.

(** C9 on the catalogue's data frame, from the empty table: the second
    run leaves the five rows of the first. *)
Lemma ingestion_is_idempotent_witness :
  movies (snd (embed_movies.main Sample.movies_df
                 (snd (embed_movies.main Sample.movies_df Sample.empty))))
  = movies (snd (embed_movies.main Sample.movies_df Sample.empty))
  /\ map Movie.id
       (movies (snd (embed_movies.main Sample.movies_df Sample.empty)))
     = [597; 14160; 2; 1; 11]%Z.
Proof.
  split; [|reflexivity].
  refine (proj1 (ingestion_is_idempotent Sample.movies_df Sample.empty _)).
  constructor.
Defined.

(** C10 on the catalogue: every result has its row's genres, and the row
    of id 8, whose genres are NULL, comes back with the empty list. *)
Lemma null_genres_become_empty_witness :
  exists resp : SearchResponse,
    fst (main.search_movies (Sample.ship 10) Sample.world) = Return resp
    /\ Forall
         (fun r =>
            exists m,
              In m (movies Sample.world) /\ Movie.embedding m <> None
              /\ MovieResult.id r = Movie.id m
              /\ MovieResult.genres r
                 = match Movie.genres m with
                   | Some genres => genres
                   | None => []
                   end)
         (results resp).
Proof.
  eexists. split; [vm_compute; reflexivity|].
  refine (null_genres_become_empty (Sample.ship 10) Sample.world _ _).
  vm_compute. reflexivity.
Defined.

(** * The further properties on the small catalogue *)

Lemma sample_provider_answers :
  forall texts, exists es,
    embeddings_create embed_movies.EMBEDDING_MODEL texts = Some es
    /\ length es = length texts
    /\ Forall (fun e => dimensions e = vector_dimensions) es.
Proof.
  intros texts. exists (map Sample.embed texts).
  split; [reflexivity|]. split; [apply length_map|].
  apply Forall_forall. reflexivity.
Qed.

Lemma sample_records_fit :
  forall r e m,
    In r (embed_movies.valid_movies Sample.movies_df) ->
    embed_movies.make_record r e = Return m ->
    dimensions e = vector_dimensions ->
    fits_columns m = true.
Proof.
  intros r e m Hr Hm _. vm_compute in Hr.
  destruct Hr as [<-|[<-|[<-|[<-|[<-|[]]]]]];
    vm_compute in Hm; injection Hm as <-; reflexivity.
Qed.

(** X5 on five rows in batches of two. *)
Lemma batches_partition_witness :
  concat
    (map (fun start => Py.slice start (Nat.min (start + 2) 5) [1; 2; 3; 4; 5])
       (Py.range 0 5 2))
  = [1; 2; 3; 4; 5].
Proof.
  refine (proj1 (batches_partition 2 [1; 2; 3; 4; 5] _)). lia.
Defined.

(** X7 on the stored row of Titanic. *)
Lemma ingestion_writes_whole_rows_witness :
  In Shelf.titanic (movies Sample.empty)
  \/ exists r,
       In r (embed_movies.valid_movies Sample.movies_df)
       /\ Row.id r = Some (Movie.id Shelf.titanic)
       /\ Row.title r = Some (Movie.title Shelf.titanic)
       /\ Movie.overview Shelf.titanic = Row.overview r
       /\ Movie.genres Shelf.titanic = Some (Row.genre_names r)
       /\ Movie.keywords Shelf.titanic
          = Some (firstn 20 (Row.keyword_names r))
       /\ Movie.release_date Shelf.titanic
          = option_map (Py.prefix 10) (Row.release_date r)
       /\ Movie.embedding Shelf.titanic <> None.
Proof.
  refine (ingestion_writes_whole_rows Sample.movies_df Sample.empty
            Shelf.titanic _).
  vm_compute. now left.
Defined.

(** X9 on Titanic with twenty-one keywords and three more. *)
Lemma keywords_past_twenty_ignored_witness :
  embed_movies.build_embedding_text
    (with_keyword_names Shelf.busy
       (Row.keyword_names Shelf.busy ++ ["a"; "b"; "c"]))
  = embed_movies.build_embedding_text Shelf.busy.
Proof.
  refine (proj1 (keywords_past_twenty_ignored Shelf.busy ["a"; "b"; "c"]
                   Sample.East _)).
  vm_compute. repeat constructor.
Defined.

(** X10 on Titanic, which has two genres. *)
Lemma genres_segment_presence_witness :
  embed_movies.build_embedding_text Sample.titanic
  = Return
      ("Titanic" ++ segment "" "A ship sinks." ++ ". Genres: "
         ++ Py.join ", " ["Drama"; "Romance"]
         ++ segment "Keywords: " (Py.join ", " ["iceberg"; "ship"]))%string.
Proof.
  refine (proj2 (genres_segment_presence Sample.titanic "Titanic"
                   "A ship sinks." eq_refl eq_refl) _ _); discriminate.
Defined.

(** X12 on the catalogue with limit 2. *)
Lemma search_result_count_witness :
  exists resp : SearchResponse,
    fst (main.search_movies (Sample.ship 2) Sample.world) = Return resp
    /\ length (results resp) = 2.
Proof.
  eexists. split; [vm_compute; reflexivity|].
  refine (proj1 (search_result_count (Sample.ship 2) Sample.world _ _)).
  vm_compute. reflexivity.
Defined.

(** X13 on the catalogue with limit 2 and on the catalogue scanned
    backwards with limit 10. *)
Lemma larger_limit_extends_witness :
  exists resp1 resp2 more,
    fst (main.search_movies (Sample.ship 2) Sample.world) = Return resp1
    /\ fst (main.search_movies (Sample.ship 10) Sample.world_reversed)
       = Return resp2
    /\ map MovieResult.similarity (results resp2)
       = map MovieResult.similarity (results resp1) ++ more.
Proof.
  destruct (fst (main.search_movies (Sample.ship 2) Sample.world))
    as [resp1|e1] eqn:H1; [|vm_compute in H1; discriminate H1].
  destruct (fst (main.search_movies (Sample.ship 10) Sample.world_reversed))
    as [resp2|e2] eqn:H2; [|vm_compute in H2; discriminate H2].
  destruct (@larger_limit_extends Sample.provider sample_order
              (Sample.ship 2) (Sample.ship 10)
              Sample.world Sample.world_reversed resp1 resp2 eq_refl)
    as [more Hmore];
    [discriminate | apply Permutation_rev | exact H1 | exact H2 |].
  exists resp1, resp2, more. auto.
Defined.

(** X14 on the catalogue's data frame: the run returns and Titanic is
    found. *)
Lemma ingested_movies_are_found_witness :
  fst (embed_movies.main Sample.movies_df Sample.empty) = Return tt
  /\ exists resp result,
       fst (main.search_movies (Sample.ship 10)
              (snd (embed_movies.main Sample.movies_df Sample.empty)))
       = Return resp
       /\ In result (results resp)
       /\ Row.id Sample.titanic = Some (MovieResult.id result).
Proof.
  refine (ingested_movies_are_found Sample.movies_df Sample.empty
            (Sample.ship 10) Sample.titanic sample_provider_answers
            sample_records_fit _ eq_refl _ _).
  - intros m e [].
  - vm_compute. split; discriminate.
  - vm_compute. now left.
Defined.

(** X16 on the catalogue: Titanic gets its new poster. *)
Lemma bulk_update_posters_effect_witness :
  In (set_poster_path Shelf.titanic (Some "/new.jpg"))
    (fst (bulk_update_posters Shelf.updates (movies Sample.world))).
Proof.
  refine (proj2 (bulk_update_posters_effect Shelf.updates
                   (movies Sample.world) Shelf.titanic _)
            (Some "/new.jpg") _ _).
  - vm_compute. now left.
  - vm_compute. now left.
  - intros p' Hp'. vm_compute in Hp'.
    destruct Hp' as [E|[E|[E|[]]]]; congruence.
Defined.

(** X18 on the catalogue: after the new posters, and scanned backwards,
    the same similarities. *)
Lemma search_after_poster_update_witness :
  exists resp resp',
    fst (main.search_movies (Sample.ship 10) Sample.world) = Return resp
    /\ fst (main.search_movies (Sample.ship 10)
              (mkWorld
                 (rev (fst (bulk_update_posters Shelf.updates
                              (movies Sample.world))))
                 []))
       = Return resp'
    /\ map MovieResult.similarity (results resp')
       = map MovieResult.similarity (results resp).
Proof.
  destruct (fst (main.search_movies (Sample.ship 10) Sample.world))
    as [resp|e] eqn:H1; [|vm_compute in H1; discriminate H1].
  destruct (proj2 (@search_after_poster_update Sample.provider sample_order
                     Shelf.updates (Sample.ship 10) Sample.world
                     (mkWorld
                        (rev (fst (bulk_update_posters Shelf.updates
                                     (movies Sample.world))))
                        [])
                     (Permutation_sym (Permutation_rev _)))
              resp H1)
    as (resp' & H2 & Hsim).
  exists resp, resp'. auto.
Defined.
